(** * rag_challenge: question resolution and evidence selection

    A shallow embedding of [src/rag_challenge.py] (class
    [PDFQuestionAnswerer] and [main]) together with the properties of the
    pipeline that its specification states.

    Conventions of the embedding.
    - Text is [string]; a character is a code point below 256, so the
      Python operations [str.lower], [str.strip], [str.split] and the
      regular-expression class [\s] are the ones of Python restricted to
      that range.
    - A Python [dict] whose iteration order is observed is an association
      list in insertion order ([dict_set]); one that is only read by key is
      a [gmap].
    - The language model is an external collaborator.  It is a function of
      the requests issued so far and of the current request; [None] stands
      for any exception raised while the request is made or its reply is
      read.  Code that talks to it lives in the state monad [M], whose
      state is the log of the requests issued. *)

From Stdlib Require Import Ascii String Floats.PrimFloat DecimalString.
From stdpp Require Import gmap strings list sorting.

Local Open Scope string_scope.
Local Open Scope Z_scope.
Local Open Scope list_scope.

#[local] Set Warnings "-inexact-float".

(** ** Python strings *)

Module Py.

Definition code (c : ascii) : nat := nat_of_ascii c.

Definition between (lo hi n : nat) : bool :=
  (Nat.leb lo n && Nat.leb n hi)%bool.

(** [str.isspace] on one character: TAB..CR, FS..US, SPACE, NEL, NBSP. *)
Definition isspace (c : ascii) : bool :=
  (between 9 13 (code c) || between 28 32 (code c)
   || Nat.eqb (code c) 133 || Nat.eqb (code c) 160)%bool.

(** Upper-case letters below 256: A..Z, À..Ö, Ø..Þ; each is 32 below its
    lower-case letter. *)
Definition isupper (c : ascii) : bool :=
  (between 65 90 (code c) || between 192 214 (code c)
   || between 216 222 (code c))%bool.

Definition lower_char (c : ascii) : ascii :=
  if isupper c then ascii_of_nat (code c + 32) else c.

(** [s.lower()] *)
Fixpoint lower (s : string) : string :=
  match s with
  | EmptyString => EmptyString
  | String c s' => String (lower_char c) (lower s')
  end.

(** [needle in hay] *)
Fixpoint contains (needle hay : string) : bool :=
  (String.prefix needle hay
   || match hay with
      | EmptyString => false
      | String _ hay' => contains needle hay'
      end)%bool.

Fixpoint lstrip (s : string) : string :=
  match s with
  | EmptyString => EmptyString
  | String c s' => if isspace c then lstrip s' else s
  end.

Fixpoint rstrip (s : string) : string :=
  match s with
  | EmptyString => EmptyString
  | String c s' =>
      match rstrip s' with
      | EmptyString => if isspace c then EmptyString else String c EmptyString
      | r => String c r
      end
  end.

(** [s.strip()] *)
Definition strip (s : string) : string := rstrip (lstrip s).

(** [s.split()]: the maximal runs of non-space characters, in order.
    [cur] is the run being read, reversed. *)
Definition flush (cur : list ascii) (acc : list string) : list string :=
  match cur with
  | [] => acc
  | _ => string_of_list_ascii (rev cur) :: acc
  end.

Fixpoint split_go (s : string) (cur : list ascii) : list string :=
  match s with
  | EmptyString => flush cur []
  | String c s' =>
      if isspace c then flush cur (split_go s' [])
      else split_go s' (c :: cur)
  end.

Definition split (s : string) : list string := split_go s [].

(** [sep.join(parts)] *)
Fixpoint join (sep : string) (parts : list string) : string :=
  match parts with
  | [] => ""
  | [p] => p
  | p :: rest => p +:+ sep +:+ join sep rest
  end.

(** [str(n)] for a non-negative integer. *)
Definition str_of_nat (n : nat) : string :=
  NilZero.string_of_uint (Nat.to_uint n).

(** Truth value of a string: empty is false. *)
Definition truthy_str (s : string) : bool :=
  match s with EmptyString => false | _ => true end.

Definition newline : ascii := ascii_of_nat 10.

End Py.

(** ** The fragment of [re] used by [extract_company_name]

    A pattern is compiled to a flat program, as [sre] does: literal
    characters, a one-or-more repetition of a character class that is
    greedy ([\s+]) or lazy ([[^,\.]+?]), and the two marks that delimit
    capturing group 1.  [run] is the backtracking matcher anchored at the
    current position; [search_from] tries every start position from left
    to right, as [re.search] does. *)

Module Re.

Inductive op :=
| Lit (c : ascii)
| Plus (cls : ascii -> bool) (lazy : bool)
| MarkOpen
| MarkClose.

Definition prog := list op.

(** The repetition [cls+] or [cls+?], followed by the rest of the program
    [kont]: one character of the class is consumed, then the greedy form
    first tries to consume more and falls back to the rest, and the lazy
    form first tries the rest and falls back to consuming more. *)
Fixpoint plus_loop (cls : ascii -> bool) (lazy : bool)
    (kont : list ascii -> nat -> option (nat * nat))
    (s : list ascii) (pos : nat) {struct s} : option (nat * nat) :=
  match s with
  | x :: s' =>
      if cls x then
        if lazy then
          match kont s' (S pos) with
          | Some r => Some r
          | None => plus_loop cls lazy kont s' (S pos)
          end
        else
          match plus_loop cls lazy kont s' (S pos) with
          | Some r => Some r
          | None => kont s' (S pos)
          end
      else None
  | [] => None
  end.

(** [run p s pos m0 m1]: [s] is the text that starts at offset [pos];
    [m0] and [m1] are the offsets of group 1 recorded so far.  The
    result is the span of group 1 of the first match in backtracking
    order. *)
Fixpoint run (p : prog) (s : list ascii) (pos m0 m1 : nat) {struct p}
  : option (nat * nat) :=
  match p with
  | [] => Some (m0, m1)
  | Lit c :: k =>
      match s with
      | x :: s' => if Ascii.eqb c x then run k s' (S pos) m0 m1 else None
      | [] => None
      end
  | MarkOpen :: k => run k s pos pos m1
  | MarkClose :: k => run k s pos m0 pos
  | Plus cls lazy :: k =>
      plus_loop cls lazy (fun s' pos' => run k s' pos' m0 m1) s pos
  end.

Fixpoint search_from (p : prog) (s : list ascii) (pos : nat) {struct s}
  : option (nat * nat) :=
  match run p s pos 0%nat 0%nat with
  | Some r => Some r
  | None =>
      match s with
      | [] => None
      | _ :: s' => search_from p s' (S pos)
      end
  end.

(** [m = re.search(p, text)] followed by [m.group(1)]. *)
Definition search_group (p : prog) (text : string) : option string :=
  match search_from p (list_ascii_of_string text) 0%nat with
  | Some (a, b) => Some (String.substring a (b - a) text)
  | None => None
  end.

(** The language of a program, without an order of search: [accepts p s
    pos m0 m1 r] when [p] reads a prefix of [s], which starts at offset
    [pos], and leaves the span [r] for group 1. *)
Inductive accepts : prog -> list ascii -> nat -> nat -> nat -> nat * nat -> Prop :=
| acc_end s pos m0 m1 :
    accepts [] s pos m0 m1 (m0, m1)
| acc_lit c k s pos m0 m1 r :
    accepts k s (S pos) m0 m1 r ->
    accepts (Lit c :: k) (c :: s) pos m0 m1 r
| acc_open k s pos m0 m1 r :
    accepts k s pos pos m1 r ->
    accepts (MarkOpen :: k) s pos m0 m1 r
| acc_close k s pos m0 m1 r :
    accepts k s pos m0 pos r ->
    accepts (MarkClose :: k) s pos m0 m1 r
| acc_plus cls lazy k x xs s pos m0 m1 r :
    forallb cls (x :: xs) = true ->
    accepts k s (pos + length (x :: xs)) m0 m1 r ->
    accepts (Plus cls lazy :: k) ((x :: xs) ++ s) pos m0 m1 r.

(** The pattern matches somewhere in the text. *)
Definition matches (p : prog) (text : string) : Prop :=
  exists skipped rest r,
    list_ascii_of_string text = skipped ++ rest
    /\ accepts p rest (length skipped) 0%nat 0%nat r.

Definition lit (s : string) : prog := map Lit (list_ascii_of_string s).

(** [\s+] *)
Definition spaces : prog := [Plus Py.isspace false].

(** [[^,\.]] *)
Definition name_char (c : ascii) : bool :=
  negb (Ascii.eqb c "," || Ascii.eqb c ".")%bool.

(** [([^,\.]+?)] *)
Definition name_group : prog := [MarkOpen; Plus name_char true; MarkClose].

End Re.

(** ** Data model *)

(** A value of the metadata file, as [json.load] returns it. *)
Inductive json :=
| JNull
| JBool (b : bool)
| JInt (n : Z)
| JStr (s : string).

(** Python truth value, as tested by [not v]. *)
Definition truthy (v : json) : bool :=
  match v with
  | JNull => false
  | JBool b => b
  | JInt n => negb (n =? 0)
  | JStr s => Py.truthy_str s
  end.

(** One record of [pdf-meta.json]: the two keys read with [meta[...]] and
    the remaining keys, read with [meta.get]. *)
Record Meta := {
  company_name : string;
  sha1 : string;
  fields : gmap string json
}.

Record Question := {
  text : string;
  kind : string
}.

Record Reference := {
  pdf_sha1 : string;
  page_index : Z
}.

Record AnswerRecord := {
  question_text : string;
  value : string;
  references : list Reference
}.

(** ** Python dictionaries in insertion order *)

Section Dict.
Context {V : Type}.

(** [d[k] = v]: a key already present keeps its position. *)
Fixpoint dict_set (k : string) (v : V) (d : list (string * V))
  : list (string * V) :=
  match d with
  | [] => [(k, v)]
  | (k', v') :: d' =>
      if String.eqb k' k then (k', v) :: d' else (k', v') :: dict_set k v d'
  end.

(** [d.get(k)] *)
Fixpoint dict_get (k : string) (d : list (string * V)) : option V :=
  match d with
  | [] => None
  | (k', v') :: d' => if String.eqb k' k then Some v' else dict_get k d'
  end.
End Dict.

(** ** The answerer *)

(** [self.pdf_dir]: the pages that [extract_text_from_pdf] returns for
    [<sha1>.pdf], for each file that exists.  A file that cannot be read
    has the pages extracted before the error, possibly none. *)
Abbreviation PdfDir := (gmap string (list string)).

Record PDFQuestionAnswerer := {
  pdf_dir : PdfDir;
  pdf_meta : list Meta;
  questions : list Question;
  company_to_sha1 : list (string * string);
  sha1_to_meta : gmap string Meta
}.

(** [__init__]: both comprehensions insert the records in file order, so a
    later record overwrites an earlier one with the same key. *)
Definition init (dir : PdfDir) (metas : list Meta) (qs : list Question)
  : PDFQuestionAnswerer :=
  {| pdf_dir := dir;
     pdf_meta := metas;
     questions := qs;
     company_to_sha1 :=
       foldl (fun d meta => dict_set (Py.lower (company_name meta)) (sha1 meta) d)
             [] metas;
     sha1_to_meta :=
       foldl (fun m meta => <[sha1 meta := meta]> m) ∅ metas |}.

(** [meta.get(key, False)] on [meta = self.sha1_to_meta.get(sha1, {})]. *)
Definition meta_get (meta : option Meta) (key : string) : json :=
  match meta with
  | Some m => default (JBool false) (fields m !! key)
  | None => JBool false
  end.

(** *** find_pdf_for_company *)

(** [len(set(a.split()).intersection(set(b.split())))] *)
Definition overlap (a b : string) : nat :=
  size ((list_to_set (Py.split a) : gset string) ∩ list_to_set (Py.split b)).

(** The loop over [self.company_to_sha1.items()]; the state is
    [(best_match, best_score)]. *)
Definition fuzzy_step (company_lower : string)
    (st : option string * nat) (item : string * string) : option string * nat :=
  let '(comp_name, sha) := item in
  let score := overlap company_lower comp_name in
  if Nat.ltb (snd st) score then (Some sha, score) else st.

Definition fuzzy_scan (company_lower : string) (d : list (string * string))
  : option string * nat :=
  foldl (fuzzy_step company_lower) (None, 0%nat) d.

Definition find_pdf_for_company (a : PDFQuestionAnswerer) (name : string)
  : option string :=
  let company_lower := Py.lower name in
  match dict_get company_lower (company_to_sha1 a) with
  | Some sha => Some sha
  | None =>
      let '(best_match, best_score) :=
        fuzzy_scan company_lower (company_to_sha1 a) in
      if Nat.ltb 0 best_score then best_match else None
  end.

(** ** The language model and the monad of its callers *)

(** A request: the user message of [_extract_company_name_with_llm], or the
    three values that [answer_question_with_llm] puts in its prompt. *)
Inductive Call :=
| ExtractName (question : string)
| Answer (question context kind : string).

(** The statement of the source that issues a request: the name
    extraction, the query on a batch, or the query on one page of an
    accepted batch.  It is recorded in the log and not shown to the
    model. *)
Inductive Site := AtName | AtBatch | AtPage.

Record Event := {
  ev_site : Site;
  ev_call : Call;
  ev_reply : option string
}.

(** The reply [message.content] to a request, given the earlier requests;
    [None] when the request raises. *)
Definition Oracle := list Call -> Call -> option string.

Definition M (A : Type) : Type := list Event -> A * list Event.

#[global] Instance M_ret : MRet M := fun A x log => (x, log).

#[global] Instance M_bind : MBind M :=
  fun A B f m log => let '(x, log') := m log in f x log'.

(** [for x in xs: st = body(x, st)] *)
Fixpoint for_each {A S} (xs : list A) (body : A -> S -> M S) (st : S) : M S :=
  match xs with
  | [] => mret st
  | x :: xs' => st' ← body x st; for_each xs' body st'
  end.

Definition is_answer_call (e : Event) : bool :=
  match ev_call e with Answer _ _ _ => true | ExtractName _ => false end.

Definition batch_size : nat := 5.

(** [range(0, n, batch_size)] *)
Definition batch_starts (n : nat) : list nat :=
  map (fun k => (k * batch_size)%nat) (seq 0 ((n + (batch_size - 1)) / batch_size)).

(** [l[i:i+batch_size]] *)
Definition slice {A} (i : nat) (l : list A) : list A :=
  take batch_size (drop i l).

(** The running best of the two evidence loops of [process_question]. *)
Record Best := {
  best_answer : string;
  best_page_idx : Z;
  best_confidence : float
}.

Section Pipeline.

Variable oracle : Oracle.

(** [client.chat.completions.create(...)] followed by
    [response.choices[0].message.content]. *)
Definition chat (site : Site) (c : Call) : M (option string) :=
  fun log =>
    let r := oracle (map ev_call log) c in
    (r, log ++ [{| ev_site := site; ev_call := c; ev_reply := r |}]).

(** *** extract_company_name *)

Definition patterns : list Re.prog :=
  [ Re.lit "For" ++ Re.spaces ++ Re.name_group ++ Re.lit ",";
    Re.lit "Did" ++ Re.spaces ++ Re.name_group ++ Re.spaces ++ Re.lit "announce";
    Re.lit "by" ++ Re.spaces ++ Re.name_group ++ Re.spaces ++ Re.lit "according";
    Re.lit "at" ++ Re.spaces ++ Re.name_group ++ Re.spaces ++ Re.lit "in";
    Re.lit "What" ++ Re.spaces ++ Re.lit "is" ++ Re.spaces ++ Re.lit "the"
      ++ Re.spaces ++ Re.name_group ++ Re.lit "'s" ].

Definition _extract_company_name_with_llm (question : string)
  : M (option string) :=
  r ← chat AtName (ExtractName question);
  mret (match r with
        | Some content => Some (Py.strip content)
        | None => None
        end).

(** The [for pattern in patterns] loop, then the fallback. *)
Fixpoint try_patterns (ps : list Re.prog) (question : string)
  : M (option string) :=
  match ps with
  | [] => _extract_company_name_with_llm question
  | pattern :: ps' =>
      match Re.search_group pattern question with
      | Some group1 => mret (Some (Py.strip group1))
      | None => try_patterns ps' question
      end
  end.

Definition extract_company_name (question : string) : M (option string) :=
  try_patterns patterns question.

(** *** answer_question_with_llm

    [site] names the statement that calls; it goes to the log only. *)

Definition answer_question_with_llm (site : Site)
    (question context kind : string) : M (string * float) :=
  r ← chat site (Answer question context kind);
  mret (match r with
        | Some content => (Py.strip content, 0.9%float)
        | None => ("N/A", 0%float)
        end).

(** *** process_question: page priorities *)

Definition financial_keywords : list string :=
  ["financial statements"; "balance sheet"; "income statement"; "cash flow";
   "financial results"].
Definition leadership_keywords : list string :=
  ["board of directors"; "executive officers"; "management"; "leadership"].
Definition risk_keywords : list string :=
  ["risk factors"; "risks"; "uncertainties"].

(** [any(keyword in page_lower for keyword in keywords) and cue in
    question_text.lower()] *)
Definition cluster_hit (keywords : list string) (cue : string)
    (question_text page_lower : string) : bool :=
  (existsb (fun keyword => Py.contains keyword page_lower) keywords
   && Py.contains cue (Py.lower question_text))%bool.

Definition clusters : list (list string * string) :=
  [(financial_keywords, "financial"); (leadership_keywords, "leadership");
   (risk_keywords, "risk")].

(** What one iteration of [for i, page in enumerate(pages)] appends. *)
Definition page_hits (question_text : string) (i : nat) (page : string)
  : list nat :=
  let page_lower := Py.lower page in
  (if cluster_hit financial_keywords "financial" question_text page_lower
   then [i] else [])
  ++ (if cluster_hit leadership_keywords "leadership" question_text page_lower
      then [i] else [])
  ++ (if cluster_hit risk_keywords "risk" question_text page_lower
      then [i] else []).

Definition priority_pages_of (question_text : string) (pages : list string)
  : list nat :=
  concat (imap (page_hits question_text) pages).

(** *** process_question: the two evidence loops *)

(** ["Page {idx}: {page}"] *)
Definition page_label (c : nat * string) : string :=
  "Page " +:+ Py.str_of_nat (fst c) +:+ ": " +:+ snd c.

Definition batch_sep : string :=
  String Py.newline (String Py.newline EmptyString).

Definition batch_context_of (cands : list (nat * string)) : string :=
  Py.join batch_sep (map page_label cands).

(** The inner loop that asks about the pages of an accepted batch one by
    one and stops at the first whose answer equals the batch answer. *)
Fixpoint locate (question_text kind answer : string)
    (cands : list (nat * string)) : M (option nat) :=
  match cands with
  | [] => mret None
  | (idx, page) :: rest =>
      '(page_answer, _) ← answer_question_with_llm AtPage question_text page kind;
      if String.eqb page_answer answer then mret (Some idx)
      else locate question_text kind answer rest
  end.

(** The body shared by both loops: [cands] pairs each page index of the
    batch with the page text. *)
Definition try_batch (question_text kind : string)
    (cands : list (nat * string)) (st : Best) : M Best :=
  '(answer, confidence) ←
    answer_question_with_llm AtBatch question_text (batch_context_of cands) kind;
  if (PrimFloat.ltb (best_confidence st) confidence
      && negb (String.eqb answer "N/A"))%bool
  then
    found ← locate question_text kind answer cands;
    mret {| best_answer := answer;
            best_page_idx :=
              match found with
              | Some idx => Z.of_nat idx
              | None => best_page_idx st
              end;
            best_confidence := confidence |}
  else mret st.

(** [pages[idx]]; every index stored in [priority_pages] is in range
    (lemma [priority_pages_in_range]). *)
Definition page_at (pages : list string) (idx : nat) : string :=
  default "" (pages !! idx).

Definition priority_body (question_text kind : string) (pages : list string)
    (priority_pages : list nat) (i : nat) (st : Best) : M Best :=
  let batch_indices := slice i priority_pages in
  try_batch question_text kind
    (map (fun idx => (idx, page_at pages idx)) batch_indices) st.

(** [any(i <= p < i + batch_size for p in priority_pages)] *)
Definition already_processed (priority_pages : list nat) (i : nat) : bool :=
  existsb (fun p => (Nat.leb i p && Nat.ltb p (i + batch_size))%bool)
          priority_pages.

Definition remaining_body (question_text kind : string) (pages : list string)
    (priority_pages : list nat) (i : nat) (st : Best) : M Best :=
  if already_processed priority_pages i then mret st
  else
    let batch_pages := slice i pages in
    try_batch question_text kind
      (imap (fun j page => ((i + j)%nat, page)) batch_pages) st.

Definition initial_best : Best :=
  {| best_answer := "N/A"; best_page_idx := -1; best_confidence := 0%float |}.

(** Lines 262 to 344 of the source: everything after the metadata
    checks. *)
Definition select_answer (question_text kind sha : string)
    (pages : list string) : M AnswerRecord :=
  let priority_pages := priority_pages_of question_text pages in
  st ← for_each (batch_starts (length priority_pages))
         (priority_body question_text kind pages priority_pages) initial_best;
  st ← (if String.eqb (best_answer st) "N/A"
        then for_each (batch_starts (length pages))
               (remaining_body question_text kind pages priority_pages) st
        else mret st);
  let references :=
    if 0 <=? best_page_idx st
    then [{| pdf_sha1 := sha; page_index := best_page_idx st |}]
    else [] in
  mret {| question_text := question_text;
          value := best_answer st;
          references := references |}.

(** *** process_question *)

(** One of the three metadata checks:
    [phrase in question_text.lower() and not meta.get(flag, False)], then
    [kind == "boolean" and "did" in question_text.lower()]. *)
Definition denied_by_metadata (phrase flag : string)
    (question_text kind : string) (meta : option Meta) : bool :=
  (Py.contains phrase (Py.lower question_text)
   && negb (truthy (meta_get meta flag))
   && (String.eqb kind "boolean"
       && Py.contains "did" (Py.lower question_text)))%bool.

Definition unresolved (question_text : string) : AnswerRecord :=
  {| question_text := question_text; value := "N/A"; references := [] |}.

Definition denied (question_text sha : string) : AnswerRecord :=
  {| question_text := question_text;
     value := "False";
     references := [{| pdf_sha1 := sha; page_index := 0 |}] |}.

Definition process_question (a : PDFQuestionAnswerer)
    (question_data : Question) : M AnswerRecord :=
  let question_text := text question_data in
  let kind := kind question_data in
  name ← extract_company_name question_text;
  match name with
  | None => mret (unresolved question_text)
  | Some name =>
  if negb (Py.truthy_str name) then mret (unresolved question_text) else
  match find_pdf_for_company a name with
  | None => mret (unresolved question_text)
  | Some sha =>
  if negb (Py.truthy_str sha) then mret (unresolved question_text) else
  match pdf_dir a !! sha with
  | None => mret (unresolved question_text)
  | Some pages =>
  match pages with
  | [] => mret (unresolved question_text)
  | _ :: _ =>
  let meta := sha1_to_meta a !! sha in
  if denied_by_metadata "share buyback" "has_share_buyback_plans"
       question_text kind meta
  then mret (denied question_text sha)
  else if denied_by_metadata "dividend policy" "has_dividend_policy_changes"
            question_text kind meta
  then mret (denied question_text sha)
  else if denied_by_metadata "mergers" "mentions_recent_mergers_and_acquisitions"
            question_text kind meta
  then mret (denied question_text sha)
  else select_answer question_text kind sha pages
  end end end end.

(** *** process_all_questions and main *)

Fixpoint process_all_questions_from (a : PDFQuestionAnswerer)
    (qs : list Question) : M (list AnswerRecord) :=
  match qs with
  | [] => mret []
  | question_data :: qs' =>
      result ← process_question a question_data;
      results ← process_all_questions_from a qs';
      mret (result :: results)
  end.

Definition process_all_questions (a : PDFQuestionAnswerer)
  : M (list AnswerRecord) :=
  process_all_questions_from a (questions a).

(** The arguments of the command line that decide what [main] does. *)
Record Args := {
  arg_output : string;
  arg_single_question : option Z
}.

(** How [main] ends: an exception that nothing catches, or a normal
    return, with the file that [save_results] wrote if it was reached. *)
Inductive Outcome :=
| Raised
| Returned (written : option (string * list AnswerRecord)).


(** [main]; [metas] and [qs] are what [_load_json] reads, [None] when the
    file is missing or is not JSON. *)
Definition main (args : Args) (dir : PdfDir)
    (metas : option (list Meta)) (qs : option (list Question)) : M Outcome :=
  match metas, qs with
  | Some metas, Some qs =>
      let answerer := init dir metas qs in
      match arg_single_question args with
      | Some n =>
          if ((n <? 0) || (Z.of_nat (length (questions answerer)) <=? n))%bool
          then mret (Returned None)
          else
            match questions answerer !! Z.to_nat n with
            | Some question_data =>
                result ← process_question answerer question_data;
                mret (Returned (Some (arg_output args, [result])))
            | None => mret Raised
            end
      | None =>
          results ← process_all_questions answerer;
          mret (Returned (Some (arg_output args, results)))
      end
  | _, _ => mret Raised
  end.

End Pipeline.

(** ** extract_text_from_pdf

    What PyPDF2 makes of a file: opening it or reading its structure
    raises, or it has pages, and [extract_text] on a page returns its text
    or raises ([None]). *)
Inductive PdfFile :=
| Unreadable
| Pages (texts : list (option string)).

(** The [for page_num in range(len(pdf_reader.pages))] loop inside the
    [try]: the first page that raises ends it, and the pages appended so
    far are kept. *)
Fixpoint read_pages (texts : list (option string)) : list string :=
  match texts with
  | Some page_text :: rest => page_text :: read_pages rest
  | None :: _ => []
  | [] => []
  end.

Definition extract_text_from_pdf (file : PdfFile) : list string :=
  match file with
  | Unreadable => []
  | Pages texts => read_pages texts
  end.

(** The directory as [process_question] sees it, for the files under
    [self.pdf_dir]. *)
Definition extracted (files : gmap string PdfFile) : PdfDir :=
  extract_text_from_pdf <$> files.

(** * find_company.py

    The stand-alone tool that looks a company up in the metadata file.
    What it prints is kept as a list of [Output] events, one for each
    [print] (and for each prompt of [input]); the lines typed by the user
    are a list of strings, and [input()] on the empty list raises
    [EOFError].  [to_int] is the builtin [int] on strings, [None] when it
    raises [ValueError]. *)

Module FindCompany.

Inductive Output :=
| LoadFailed
| FoundExact (asked : string)
| TryingFuzzy (asked : string)
| FoundMatches (count : nat)
| CandidateName (rank : nat) (name : string) (score : nat)
| CandidateSha (sha : string)
| CandidateIndustry (industry : json)
| Prompt
| FullMetadataHeader
| Dump (meta : Meta)
| InvalidChoice
| InvalidInput
| NoMatches (asked : string)
| UseFuzzy (asked : string).

Record Args := {
  arg_company_name : string;
  arg_fuzzy : bool
}.

(** How the script ends: what it printed, the exit status, and the lines
    of input it did not read. *)
Record Run := {
  printed : list Output;
  status : Z;
  unread : list string
}.

(** An entry of [best_matches]: [(overlap, comp_name, meta)]. *)
Definition Match : Type := nat * string * Meta.

Definition score (m : Match) : nat := m.1.1.
Definition comp_name (m : Match) : string := m.1.2.
Definition meta_of (m : Match) : Meta := m.2.

(** The order of the tuples on their first two components; the names of
    two entries differ, being keys of one dictionary, so the third
    component is never compared.  [precedes a b]: [a] is not below [b]. *)
Definition precedes (a b : Match) : Prop :=
  (score b < score a)%nat
  ∨ (score a = score b ∧ String.le (comp_name b) (comp_name a)).

#[global] Instance precedes_dec : RelDecision precedes.
Proof. intros a b. unfold precedes. apply _. Defined.

(** [company_to_meta]: the dictionary from lower-cased names to records. *)
Definition company_to_meta (pdf_meta : list Meta) : list (string * Meta) :=
  foldl (fun d meta => dict_set (Py.lower (company_name meta)) meta d)
        [] pdf_meta.

(** The loop that collects the entries with a positive overlap. *)
Fixpoint collect (company_lower : string) (items : list (string * Meta))
  : list Match :=
  match items with
  | [] => []
  | (name, meta) :: rest =>
      let overlap := overlap company_lower name in
      if Nat.ltb 0 overlap
      then (overlap, name, meta) :: collect company_lower rest
      else collect company_lower rest
  end.

(** [best_matches] after [best_matches.sort(reverse=True)]. *)
Definition best_matches (company_lower : string) (d : list (string * Meta))
  : list Match :=
  merge_sort precedes (collect company_lower d).

(** The [for i, (score, comp_name, meta) in enumerate(best_matches[:5])]
    loop; [meta['major_industry']] raises [KeyError] when the key is
    missing, after the first two lines of the entry were printed.  The
    result says whether the loop ended without raising. *)
Fixpoint show (i : nat) (shown : list Match) : list Output * bool :=
  match shown with
  | [] => ([], true)
  | m :: rest =>
      let head := [CandidateName (i + 1) (company_name (meta_of m)) (score m);
                   CandidateSha (sha1 (meta_of m))] in
      match fields (meta_of m) !! "major_industry" with
      | Some industry =>
          let '(out, ok) := show (S i) rest in
          (head ++ CandidateIndustry industry :: out, ok)
      | None => (head, false)
      end
  end.

Section Interaction.

Variable to_int : string -> option Z.

(** The [while True] loop. *)
Fixpoint ask (best : list Match) (inputs : list string) : Run :=
  match inputs with
  | [] => {| printed := [Prompt]; status := 1; unread := [] |}
  | choice :: rest =>
      if String.eqb (Py.lower choice) "q"
      then {| printed := [Prompt]; status := 0; unread := rest |}
      else
        match to_int choice with
        | Some n =>
            let choice_idx := n - 1 in
            if ((0 <=? choice_idx)
                && (choice_idx <? Z.of_nat (length (take 5 best))))%bool
            then
              match best !! Z.to_nat choice_idx with
              | Some m =>
                  {| printed := [Prompt; FullMetadataHeader; Dump (meta_of m)];
                     status := 0; unread := rest |}
              | None => {| printed := [Prompt]; status := 1; unread := rest |}
              end
            else
              let r := ask best rest in
              {| printed := Prompt :: InvalidChoice :: printed r;
                 status := status r; unread := unread r |}
        | None =>
            let r := ask best rest in
            {| printed := Prompt :: InvalidInput :: printed r;
               status := status r; unread := unread r |}
        end
  end.

(** [main]; [pdf_meta] is what [json.load] reads, [None] when opening or
    parsing the file raises. *)
Definition main (args : Args) (pdf_meta : option (list Meta))
    (inputs : list string) : Run :=
  match pdf_meta with
  | None => {| printed := [LoadFailed]; status := 1; unread := inputs |}
  | Some pdf_meta =>
      let company_to_meta := company_to_meta pdf_meta in
      let company_lower := Py.lower (arg_company_name args) in
      match dict_get company_lower company_to_meta with
      | Some meta =>
          {| printed := [FoundExact (arg_company_name args); Dump meta];
             status := 0; unread := inputs |}
      | None =>
          if arg_fuzzy args then
            let best_matches := best_matches company_lower company_to_meta in
            match best_matches with
            | [] =>
                {| printed := [TryingFuzzy (arg_company_name args);
                               NoMatches (arg_company_name args)];
                   status := 0; unread := inputs |}
            | _ :: _ =>
                let '(out, ok) := show 0 (take 5 best_matches) in
                let listed := TryingFuzzy (arg_company_name args)
                              :: FoundMatches (length best_matches) :: out in
                if ok then
                  let r := ask best_matches inputs in
                  {| printed := listed ++ printed r;
                     status := status r; unread := unread r |}
                else {| printed := listed; status := 1; unread := inputs |}
            end
          else
            {| printed := [UseFuzzy (arg_company_name args)];
               status := 0; unread := inputs |}
      end
  end.

End Interaction.

End FindCompany.

(** * test_rag.py *)

Module TestRag.

Inductive Output :=
| Testing (question : string)
| ExtractedName (name : option string)
| FoundPdf (sha : option string)
| Metadata (meta : option Meta)
| Result (result : AnswerRecord)
| FinalOutput (answers : list AnswerRecord).

(** How the script ends: what it printed and the exit status. *)
Record Run := {
  printed : list Output;
  status : Z
}.

Definition test_question : Question :=
  {| text := "Did Liberty Broadband Corporation announce a share buyback plan in the annual report? If there is no mention, return False.";
     kind := "boolean" |}.

(** [main]; [answerer.find_pdf_for_company(None)] raises on [None.lower()],
    and [sha1_to_meta.get(sha1, {})] is [None] here when the key is
    missing. *)
Definition main (oracle : Oracle) (answerer : PDFQuestionAnswerer) : M Run :=
  company_name ← extract_company_name oracle (text test_question);
  let said := [Testing (text test_question); ExtractedName company_name] in
  match company_name with
  | None => mret {| printed := said; status := 1 |}
  | Some name =>
      let found := find_pdf_for_company answerer name in
      let said := said ++ [FoundPdf found] in
      match found with
      | Some sha =>
          if Py.truthy_str sha then
            let meta := sha1_to_meta answerer !! sha in
            result ← process_question oracle answerer test_question;
            mret {| printed := said ++ [Metadata meta; Result result;
                                        FinalOutput [result]];
                    status := 0 |}
          else mret {| printed := said; status := 0 |}
      | None => mret {| printed := said; status := 0 |}
      end
  end.

End TestRag.

(** * Vocabulary of the properties *)

(** The number of keyword clusters that a page matches and whose cue the
    question contains. *)
Definition hit_count (question_text page : string) : nat :=
  length (List.filter
            (fun c => cluster_hit (fst c) (snd c) question_text (Py.lower page))
            clusters).

(** The first comprehension of [__init__], started from any dictionary. *)
Definition index_names (d : list (string * string)) (metas : list Meta)
  : list (string * string) :=
  foldl (fun d meta => dict_set (Py.lower (company_name meta)) (sha1 meta) d)
        d metas.

(** Position [i] of the index holds the first name, in iteration order,
    whose overlap with the query is positive and the largest of all. *)
Definition first_best (q : string) (d : list (string * string)) (i : nat) : Prop :=
  ∃ name sha,
    d !! i = Some (name, sha)
    ∧ (0 < overlap q name)%nat
    ∧ (∀ j name' sha', d !! j = Some (name', sha') →
                       (overlap q name' <= overlap q name)%nat)
    ∧ (∀ j name' sha', (j < i)%nat → d !! j = Some (name', sha') →
                       (overlap q name' < overlap q name)%nat).

(** What [answer_question_with_llm] returns for a reply of the model. *)
Definition decode (r : option string) : string * float :=
  match r with
  | Some content => (Py.strip content, 0.9%float)
  | None => ("N/A", 0%float)
  end.

(** The batch queries recorded in a log, in order; their requests and
    their answers. *)
Definition batch_events (evs : list Event) : list Event :=
  List.filter (fun e => match ev_site e with AtBatch => true | _ => false end)
              evs.

Definition batch_calls (evs : list Event) : list Call :=
  map ev_call (batch_events evs).

Definition batch_answers (evs : list Event) : list string :=
  map (fun e => fst (decode (ev_reply e))) (batch_events evs).

(** The batch queries of the two passes of [select_answer], in the order
    of the loops: one for each group of five priority pages, and one for
    each window of five pages that holds no priority page. *)
Definition priority_queries (question_text kind : string) (pages : list string)
  : list Call :=
  let priority_pages := priority_pages_of question_text pages in
  map (fun i =>
         Answer question_text
           (batch_context_of
              (map (fun idx => (idx, page_at pages idx)) (slice i priority_pages)))
           kind)
      (batch_starts (length priority_pages)).

Definition remaining_queries (question_text kind : string) (pages : list string)
  : list Call :=
  let priority_pages := priority_pages_of question_text pages in
  map (fun i =>
         Answer question_text
           (batch_context_of
              (imap (fun j page => ((i + j)%nat, page)) (slice i pages)))
           kind)
      (List.filter (fun i => negb (already_processed priority_pages i))
                   (batch_starts (length pages))).

(** The first answer that is not the sentinel. *)
Definition first_found (answers : list string) : option string :=
  List.find (fun s => negb (String.eqb s "N/A")) answers.

(** The running best is either the initial one or an accepted answer. *)
Definition Best_ok (st : Best) : Prop :=
  (best_answer st = "N/A" ∧ best_confidence st = 0%float)
  ∨ (best_answer st ≠ "N/A" ∧ best_confidence st = 0.9%float).

Definition event_of (oracle : Oracle) (site : Site) (c : Call)
    (log : list Event) : Event :=
  {| ev_site := site; ev_call := c;
     ev_reply := oracle (map ev_call log) c |}.

(** The invariant of both loops, for the run that started with log
    [log0] over the page sequence [pages]. *)
Definition Inv (log0 : list Event) (pages : list string)
    (st : Best) (log : list Event) : Prop :=
  ∃ new,
    log = log0 ++ new
    ∧ Best_ok st
    ∧ best_answer st = default "N/A" (first_found (batch_answers new))
    ∧ best_page_idx st < Z.of_nat (length pages).

(** The three metadata checks, in the order of the source. *)
Definition short_circuits (question_text kind : string) (meta : option Meta)
  : bool :=
  (denied_by_metadata "share buyback" "has_share_buyback_plans"
     question_text kind meta
   || denied_by_metadata "dividend policy" "has_dividend_policy_changes"
        question_text kind meta
   || denied_by_metadata "mergers" "mentions_recent_mergers_and_acquisitions"
        question_text kind meta)%bool.


(** The queries on single pages recorded in a log. *)
Definition page_events (evs : list Event) : list Event :=
  List.filter (fun e => match ev_site e with AtPage => true | _ => false end)
              evs.

(** The best page, when there is one, was asked on its own in [new] and
    gave the best answer. *)
Definition backed (q k : string) (pages : list string) (answer : string)
    (idx : Z) (new : list Event) : Prop :=
  ∃ e i page,
    e ∈ new
    ∧ ev_site e = AtPage
    ∧ idx = Z.of_nat i
    ∧ pages !! i = Some page
    ∧ ev_call e = Answer q page k
    ∧ (decode (ev_reply e)).1 = answer.

(** A second invariant of both loops: while the best is the sentinel no
    page was asked on its own and the page index is -1; a page index is
    backed by a page query; at most one batch was localised. *)
Definition Inv_pages (log0 : list Event) (q k : string) (pages : list string)
    (st : Best) (log : list Event) : Prop :=
  ∃ new,
    log = log0 ++ new
    ∧ Best_ok st
    ∧ Forall (fun e => ev_site e = AtBatch ∨ ev_site e = AtPage) new
    ∧ (best_answer st = "N/A" → best_page_idx st = -1 ∧ page_events new = [])
    ∧ (0 <= best_page_idx st →
       backed q k pages (best_answer st) (best_page_idx st) new)
    ∧ (length (page_events new) <= batch_size)%nat.

(** A program without group marks. *)
Definition marks_free (p : Re.prog) : Prop :=
  Forall (fun o => match o with
                   | Re.Lit _ | Re.Plus _ _ => True
                   | Re.MarkOpen | Re.MarkClose => False
                   end) p.

(** A program with one group, a lazy run of name characters, and no mark
    after it: the shape of the five patterns. *)
Definition name_pattern (p : Re.prog) : Prop :=
  ∃ pre post,
    p = pre ++ Re.MarkOpen :: Re.Plus Re.name_char true :: Re.MarkClose :: post
    ∧ marks_free post.

(** A dictionary comprehension [{key(x): val(x) for x in xs}], continued
    from the dictionary [d]. *)
Definition dict_of {A V} (key : A → string) (val : A → V)
    (d : list (string * V)) (xs : list A) : list (string * V) :=
  foldl (fun d x => dict_set (key x) (val x) d) d xs.

(** The record of a candidate has the key that the listing prints. *)
Definition has_industry (m : FindCompany.Match) : Prop :=
  is_Some (fields (FindCompany.meta_of m) !! "major_industry").

(** An input line that the selection loop of find_company.py rejects:
    not "q", and not a number from 1 to the count of candidates shown. *)
Definition rejected (to_int : string → option Z) (best : list FindCompany.Match)
    (line : string) : Prop :=
  Py.lower line ≠ "q"
  ∧ ∀ n, to_int line = Some n →
         ¬ (1 <= n <= Z.of_nat (length (take 5 best))).

(** What the loop prints for a rejected line. *)
Definition complaint (to_int : string → option Z) (line : string)
  : list FindCompany.Output :=
  [FindCompany.Prompt;
   match to_int line with
   | Some _ => FindCompany.InvalidChoice
   | None => FindCompany.InvalidInput
   end].

(** ** Sample data *)

(** An oracle that always raises. *)
Definition silent : Oracle := fun _ _ => None.

Definition acme : Meta :=
  {| company_name := "Acme Corp";
     sha1 := "abc123";
     fields := {["has_share_buyback_plans" := JBool false]} |}.

Definition acme_holdings : Meta :=
  {| company_name := "Acme Holdings"; sha1 := "def456"; fields := ∅ |}.


(** A model that answers "42" to a context that starts with a page label,
    as the batch contexts do, and "N/A" to the bare text of a page. *)
Definition labelled_only : Oracle :=
  fun _ c =>
    match c with
    | Answer _ context _ =>
        if String.prefix "Page " context then Some "42" else Some "N/A"
    | ExtractName _ => None
    end.

Definition report : list string :=
  ["Consolidated financial statements"; "p1"; "p2"; "p3"; "p4"; "p5"].

Definition report_question : Question :=
  {| text := "For Acme Corp, what was the financial result?"; kind := "number" |}.

(** A model that finds nothing. *)
Definition knows_nothing : Oracle := fun _ _ => Some "N/A".

Definition buyback_question : Question :=
  {| text := "Did Acme Corp announce a share buyback plan?"; kind := "boolean" |}.

Definition liberty_question : string :=
  "Did Liberty Broadband Corporation announce a share buyback plan?".


(** A question that no pattern matches, and a model that names the
    company of any question. *)
Definition plain_question : Question :=
  {| text := "How many employees does Acme Corp have"; kind := "number" |}.

Definition names_acme : Oracle :=
  fun _ c =>
    match c with
    | ExtractName _ => Some " Acme Corp "
    | Answer _ _ _ => Some "N/A"
    end.

(** A file whose third page cannot be extracted. *)
Definition damaged_report : PdfFile :=
  Pages [Some "Consolidated financial statements"; Some "p1"; None; Some "p3"].

(** [int] on the numerals of one decimal digit, enough for the menu of
    find_company.py; the other lines used below are not numerals. *)
Definition digit_to_int (line : string) : option Z :=
  match line with
  | String c EmptyString =>
      if Py.between 48 57 (Py.code c) then Some (Z.of_nat (Py.code c) - 48)
      else None
  | _ => None
  end.

Definition acme_listed : Meta :=
  {| company_name := "Acme Corp";
     sha1 := "abc123";
     fields := {["major_industry" := JStr "Technology"]} |}.

Definition acme_holdings_listed : Meta :=
  {| company_name := "Acme Holdings";
     sha1 := "def456";
     fields := {["major_industry" := JStr "Finance"]} |}.

(** A model that gives the same answer to every request. *)
Definition says_42 : Oracle := fun _ _ => Some "42".

Definition ask_acme_inc : FindCompany.Args :=
  {| FindCompany.arg_company_name := "ACME Inc";
     FindCompany.arg_fuzzy := true |}.

Definition ask_acme_corp : FindCompany.Args :=
  {| FindCompany.arg_company_name := "ACME CORP";
     FindCompany.arg_fuzzy := false |}.



(** * Properties *)

(** ** Batches *)

(** [batch_starts n] lists the multiples of the batch size below [n], as
    [range(0, n, batch_size)] does. *)
Lemma batch_starts_spec (n i : nat) :
  i ∈ batch_starts n ↔ (i < n)%nat ∧ (i mod batch_size = 0)%nat.
Proof.
  unfold batch_starts, batch_size. change (5 - 1)%nat with 4%nat.
  rewrite list_elem_of_fmap.
  pose proof (Nat.div_mod_eq (n + 4) 5) as Hn.
  pose proof (Nat.mod_upper_bound (n + 4) 5 ltac:(lia)) as Hn'.
  split.
  - intros (k & -> & [_ Hk]%elem_of_seq). split; [lia|].
    apply Nat.Div0.mod_mul.
  - intros [Hlt Hmod]. pose proof (Nat.div_mod_eq i 5) as Hi.
    exists (i / 5)%nat. split; [lia|].
    apply elem_of_seq. split; [lia|].
    apply Nat.Div0.div_lt_upper_bound. lia.
Qed.

Example batch_starts_12 : batch_starts 12 = [0; 5; 10]%nat.
Proof. reflexivity. Qed.

(** ** The page priorities *)

Lemma page_hits_replicate question_text i page :
  page_hits question_text i page = replicate (hit_count question_text page) i.
Proof.
  unfold page_hits, hit_count, clusters. cbn [List.filter fst snd].
  destruct (cluster_hit financial_keywords _ _ _);
    destruct (cluster_hit leadership_keywords _ _ _);
    destruct (cluster_hit risk_keywords _ _ _); reflexivity.
Qed.

Lemma count_occ_replicate (n i j : nat) :
  count_occ Nat.eq_dec (replicate n i) j = if decide (i = j) then n else 0%nat.
Proof.
  induction n as [|n IH]; simpl.
  - by case_decide.
  - rewrite IH. destruct (Nat.eq_dec i j); case_decide; congruence.
Qed.

(** The list built by the loop when the first page has index [k]. *)
Lemma priority_from_spec question_text (pages : list string) (k : nat) :
  let l := concat (imap (fun j => page_hits question_text (k + j)) pages) in
  Forall (fun i => (k <= i < k + length pages)%nat) l
  ∧ StronglySorted le l
  ∧ ∀ i, count_occ Nat.eq_dec l i =
         if decide (k <= i)%nat
         then match pages !! (i - k)%nat with
              | Some page => hit_count question_text page
              | None => 0%nat
              end
         else 0%nat.
Proof.
  revert k. induction pages as [|page pages IH]; intros k; cbn zeta.
  - simpl. repeat split; [constructor .. |]. intros i. by case_decide.
  - rewrite imap_cons. cbn [concat].
    rewrite (imap_ext _ (fun j => page_hits question_text (S k + j))); last first.
    { intros j x _. simpl. f_equal. lia. }
    destruct (IH (S k)) as (Hrange & Hsorted & Hcount). clear IH.
    rewrite Nat.add_0_r, page_hits_replicate.
    repeat split.
    + apply Forall_app. split.
      * apply Forall_forall. intros i Hi%elem_of_replicate. simpl. lia.
      * eapply Forall_impl; [exact Hrange|]. simpl. intros; lia.
    + apply StronglySorted_app_2; [| |exact Hsorted].
      * intros x1 x2 Hx1%elem_of_replicate Hx2.
        rewrite Forall_forall in Hrange. specialize (Hrange _ Hx2). lia.
      * generalize (hit_count question_text page). intros n.
        induction n as [|n IHn]; simpl; constructor; [done|].
        apply Forall_forall. by intros ? [-> _]%elem_of_replicate.
    + intros i. rewrite count_occ_app, count_occ_replicate, Hcount.
      repeat case_decide; try lia.
      * subst i. by rewrite Nat.sub_diag.
      * replace (i - k)%nat with (S (i - S k)) by lia. simpl. lia.
Qed.

Lemma priority_pages_in_range question_text (pages : list string) :
  Forall (fun i => (i < length pages)%nat) (priority_pages_of question_text pages).
Proof.
  destruct (priority_from_spec question_text pages 0) as (H & _).
  eapply Forall_impl; [exact H|]. simpl. intros; lia.
Qed.

(** C6. Every index that the page prioritizer returns is a valid index of
    the page sequence; the list is in non-decreasing page order; and an
    index occurs in it as many times as the page matches keyword clusters
    whose cue is in the question, so an index is repeated only for a page
    that matches more than one such cluster. *)
Theorem priority_pages_spec question_text (pages : list string) :
  Forall (fun i => (0 <= i < length pages)%nat)
         (priority_pages_of question_text pages)
  ∧ StronglySorted le (priority_pages_of question_text pages)
  ∧ (∀ i, count_occ Nat.eq_dec (priority_pages_of question_text pages) i =
          match pages !! i with
          | Some page => hit_count question_text page
          | None => 0%nat
          end)
  ∧ (∀ i, (1 < count_occ Nat.eq_dec (priority_pages_of question_text pages) i)%nat →
          ∃ page, pages !! i = Some page
                  ∧ (1 < hit_count question_text page)%nat).
Proof.
  destruct (priority_from_spec question_text pages 0) as (Hrange & Hsorted & Hcount).
  assert (Hc : ∀ i, count_occ Nat.eq_dec (priority_pages_of question_text pages) i =
          match pages !! i with
          | Some page => hit_count question_text page
          | None => 0%nat
          end).
  { intros i. specialize (Hcount i). rewrite Nat.sub_0_r in Hcount.
    rewrite decide_True in Hcount by lia. exact Hcount. }
  split; [exact Hrange|]. split; [exact Hsorted|]. split; [exact Hc|].
  intros i Hi. rewrite Hc in Hi.
  destruct (pages !! i) as [page|]; [|lia]. by exists page.
Qed.

(** ** The name index *)

Section DictFacts.
Context {V : Type}.
Implicit Types (d : list (string * V)) (k : string) (v : V).

Lemma dict_get_set_eq k v d : dict_get k (dict_set k v d) = Some v.
Proof.
  induction d as [|[k' v'] d IH]; simpl.
  - by rewrite String.eqb_refl.
  - destruct (String.eqb k' k) eqn:E; simpl; rewrite E; [done|exact IH].
Qed.

Lemma dict_get_set_ne k k' v d :
  k ≠ k' → dict_get k (dict_set k' v d) = dict_get k d.
Proof.
  intros Hne. induction d as [|[k0 v0] d IH]; simpl.
  - destruct (String.eqb_spec k' k); [congruence|done].
  - destruct (String.eqb_spec k0 k'); simpl.
    + subst k0. by destruct (String.eqb_spec k' k); [congruence|].
    + by rewrite IH.
Qed.
End DictFacts.

Lemma index_names_other k (metas : list Meta) d :
  (∀ m, m ∈ metas → Py.lower (company_name m) ≠ k) →
  dict_get k (index_names d metas) = dict_get k d.
Proof.
  revert d. induction metas as [|m metas IH]; intros d Hk; [done|].
  simpl. unfold index_names in IH. rewrite IH.
  - apply dict_get_set_ne. intros ->. eapply Hk; [left|done].
  - intros m' Hm'. apply Hk. by right.
Qed.

Lemma index_names_last (pre post : list Meta) m d :
  (∀ m', m' ∈ post → Py.lower (company_name m') ≠ Py.lower (company_name m)) →
  dict_get (Py.lower (company_name m)) (index_names d (pre ++ m :: post))
  = Some (sha1 m).
Proof.
  intros Hpost. unfold index_names. rewrite foldl_app. simpl.
  fold (index_names (dict_set (Py.lower (company_name m)) (sha1 m)
                       (index_names d pre)) post).
  rewrite index_names_other by exact Hpost.
  apply dict_get_set_eq.
Qed.

(** C8. In the index built from the metadata records, the company name of
    a record, written in any letter casing, resolves to the document id of
    that record when no other record has the same lower-cased name; in
    general it resolves to the id of the last record loaded with that
    lower-cased name. *)
Theorem exact_match_any_casing dir (metas : list Meta) qs (m : Meta) (query : string) :
  m ∈ metas →
  Py.lower query = Py.lower (company_name m) →
  (NoDup (map (fun m' => Py.lower (company_name m')) metas) →
   find_pdf_for_company (init dir metas qs) query = Some (sha1 m))
  ∧ (∀ pre post,
       metas = pre ++ m :: post →
       (∀ m', m' ∈ post →
              Py.lower (company_name m') ≠ Py.lower (company_name m)) →
       find_pdf_for_company (init dir metas qs) query = Some (sha1 m)).
Proof.
  intros Hin Hq.
  assert (Hlast : ∀ pre post,
       metas = pre ++ m :: post →
       (∀ m', m' ∈ post →
              Py.lower (company_name m') ≠ Py.lower (company_name m)) →
       find_pdf_for_company (init dir metas qs) query = Some (sha1 m)).
  { intros pre post -> Hpost. unfold find_pdf_for_company, init. simpl.
    rewrite Hq.
    change (foldl _ [] (pre ++ m :: post)) with (index_names [] (pre ++ m :: post)).
    by rewrite index_names_last. }
  split; [|exact Hlast].
  intros Hnodup. apply list_elem_of_split in Hin as (pre & post & ->).
  apply (Hlast pre post eq_refl).
  intros m' Hm' Heq.
  rewrite map_app in Hnodup. apply NoDup_app in Hnodup as (_ & _ & Hnodup).
  simpl in Hnodup. apply NoDup_cons in Hnodup as [Hnotin _].
  apply Hnotin. rewrite <- Heq.
  apply (list_elem_of_fmap_2 (fun m' => Py.lower (company_name m'))). exact Hm'.
Qed.

Lemma exact_match_any_casing_witness :
  find_pdf_for_company (init ∅ [acme] []) "ACME corp" = Some "abc123".
Proof.
  apply (exact_match_any_casing ∅ [acme] [] acme "ACME corp").
  - by left.
  - reflexivity.
  - simpl. apply NoDup_cons. split; [apply not_elem_of_nil|apply NoDup_nil_2].
Defined.

(** ** Fuzzy resolution *)

Lemma first_best_unique q d i i' :
  first_best q d i → first_best q d i' → i = i'.
Proof.
  intros (n & s & Hi & _ & Hmax & Hfirst) (n' & s' & Hi' & _ & Hmax' & Hfirst').
  destruct (Nat.lt_total i i') as [Hlt|[->|Hlt]]; [|done|].
  - specialize (Hfirst' _ _ _ Hlt Hi). specialize (Hmax _ _ _ Hi'). lia.
  - specialize (Hfirst _ _ _ Hlt Hi'). specialize (Hmax' _ _ _ Hi). lia.
Qed.

(** What the scan holds after the entries [d]. *)
Lemma fuzzy_scan_spec q (d : list (string * string)) :
  (fuzzy_scan q d = (None, 0%nat)
   ∧ ∀ name sha, (name, sha) ∈ d → overlap q name = 0%nat)
  ∨ (∃ i name sha,
        d !! i = Some (name, sha)
        ∧ first_best q d i
        ∧ fuzzy_scan q d = (Some sha, overlap q name)).
Proof.
  induction d as [|[n s] d IH] using rev_ind.
  - left. split; [done|]. intros ?? H. by apply elem_of_nil in H.
  - unfold fuzzy_scan in *. rewrite foldl_snoc.
    destruct IH as [[-> Hzero]|(i & name & sha & Hi & Hbest & ->)].
    + unfold fuzzy_step. cbn [snd].
      destruct (Nat.ltb_spec 0 (overlap q n)) as [Hpos|Hnpos].
      * right. exists (length d), n, s.
        assert (Hl : (d ++ [(n, s)]) !! length d = Some (n, s)).
        { by rewrite lookup_app_r, Nat.sub_diag by lia. }
        split; [exact Hl|]. split; [|done].
        exists n, s. split; [exact Hl|]. split; [exact Hpos|]. split.
        -- intros j n' s' [[_ Hj]|[_ Hj]]%lookup_snoc_Some.
           ++ apply list_elem_of_lookup_2 in Hj. rewrite (Hzero _ _ Hj). lia.
           ++ by inversion Hj.
        -- intros j n' s' Hlt Hj. rewrite lookup_app_l in Hj by exact Hlt.
           apply list_elem_of_lookup_2 in Hj. rewrite (Hzero _ _ Hj). lia.
      * left. split; [done|]. intros n' s' [Hin|Hin]%elem_of_app.
        -- by apply Hzero in Hin.
        -- apply list_elem_of_singleton in Hin. inversion Hin; subst. lia.
    + destruct Hbest as (name0 & sha0 & Hi0 & Hpos & Hmax & Hfirst).
      rewrite Hi in Hi0. inversion Hi0; subst name0 sha0. clear Hi0.
      assert (Hlen : (i < length d)%nat) by (by eapply lookup_lt_Some).
      unfold fuzzy_step. cbn [snd].
      destruct (Nat.ltb_spec (overlap q name) (overlap q n)) as [Hgt|Hle].
      * right. exists (length d), n, s.
        assert (Hl : (d ++ [(n, s)]) !! length d = Some (n, s)).
        { by rewrite lookup_app_r, Nat.sub_diag by lia. }
        split; [exact Hl|]. split; [|done].
        exists n, s. split; [exact Hl|]. split; [lia|]. split.
        -- intros j n' s' [[_ Hj]|[_ Hj]]%lookup_snoc_Some.
           ++ specialize (Hmax _ _ _ Hj). lia.
           ++ by inversion Hj.
        -- intros j n' s' Hlt Hj. rewrite lookup_app_l in Hj by exact Hlt.
           specialize (Hmax _ _ _ Hj). lia.
      * right. exists i, name, sha.
        assert (Hl : (d ++ [(n, s)]) !! i = Some (name, sha)).
        { by rewrite lookup_app_l. }
        split; [exact Hl|]. split; [|done].
        exists name, sha. split; [exact Hl|]. split; [exact Hpos|]. split.
        -- intros j n' s' [[_ Hj]|[_ Hj]]%lookup_snoc_Some.
           ++ by eapply Hmax.
           ++ by inversion Hj; subst.
        -- intros j n' s' Hlt Hj.
           rewrite lookup_app_l in Hj by lia. by eapply Hfirst.
Qed.

(** C3. For a query name that is not a key of the index, the resolver
    returns nothing when no indexed name shares a word with the query, and
    otherwise the document id stored under the indexed name whose word
    overlap with the lower-cased query is the largest, the first such name
    in insertion order when several tie.  That position is unique, and the
    resolver is a function of the index and the query alone. *)
Theorem fuzzy_resolution_spec (a : PDFQuestionAnswerer) (query : string) :
  dict_get (Py.lower query) (company_to_sha1 a) = None →
  ((∀ name sha, (name, sha) ∈ company_to_sha1 a →
                overlap (Py.lower query) name = 0%nat) →
   find_pdf_for_company a query = None)
  ∧ ((∃ name sha, (name, sha) ∈ company_to_sha1 a
                  ∧ (0 < overlap (Py.lower query) name)%nat) →
     ∃ i name sha,
       company_to_sha1 a !! i = Some (name, sha)
       ∧ first_best (Py.lower query) (company_to_sha1 a) i
       ∧ find_pdf_for_company a query = Some sha)
  ∧ (∀ i i', first_best (Py.lower query) (company_to_sha1 a) i →
             first_best (Py.lower query) (company_to_sha1 a) i' → i = i').
Proof.
  intros Hmiss. unfold find_pdf_for_company. rewrite Hmiss.
  destruct (fuzzy_scan_spec (Py.lower query) (company_to_sha1 a))
    as [[Hscan Hzero]|(i & name & sha & Hi & Hbest & Hscan)]; rewrite Hscan.
  - split; [done|]. split; [|apply first_best_unique].
    intros (n & s & Hin & Hpos). rewrite (Hzero _ _ Hin) in Hpos. lia.
  - assert (Hpos : (0 < overlap (Py.lower query) name)%nat).
    { destruct Hbest as (n0 & s0 & Hi0 & Hpos & _).
      rewrite Hi in Hi0. by inversion Hi0; subst. }
    split; [|split; [|apply first_best_unique]].
    + intros Hzero. apply list_elem_of_lookup_2 in Hi.
      rewrite (Hzero _ _ Hi) in Hpos. lia.
    + intros _. exists i, name, sha.
      destruct (Nat.ltb_spec 0 (overlap (Py.lower query) name)); [done|lia].
Qed.

Lemma fuzzy_resolution_spec_witness :
  ∃ i name sha,
    company_to_sha1 (init ∅ [acme; acme_holdings] []) !! i = Some (name, sha)
    ∧ first_best (Py.lower "ACME Inc")
        (company_to_sha1 (init ∅ [acme; acme_holdings] [])) i
    ∧ find_pdf_for_company (init ∅ [acme; acme_holdings] []) "ACME Inc" = Some sha.
Proof.
  apply (fuzzy_resolution_spec (init ∅ [acme; acme_holdings] []) "ACME Inc").
  - reflexivity.
  - exists "acme corp", "abc123". split; [left|]. vm_compute. lia.
Defined.

Example fuzzy_tie_first_wins :
  find_pdf_for_company (init ∅ [acme; acme_holdings] []) "ACME Inc" = Some "abc123".
Proof. reflexivity. Qed.

(** ** The evidence loops *)

Section LoopFacts.

Variable oracle : Oracle.

Lemma answer_run site q ctx k log :
  answer_question_with_llm oracle site q ctx k log
  = (decode (oracle (map ev_call log) (Answer q ctx k)),
     log ++ [event_of oracle site (Answer q ctx k) log]).
Proof.
  unfold answer_question_with_llm, mbind, M_bind, mret, M_ret, chat, event_of.
  simpl. by destruct (oracle _ _).
Qed.

Lemma locate_cons q k answer idx page rest log :
  locate oracle q k answer ((idx, page) :: rest) log
  = if String.eqb (decode (oracle (map ev_call log) (Answer q page k))).1 answer
    then (Some idx, log ++ [event_of oracle AtPage (Answer q page k) log])
    else locate oracle q k answer rest
           (log ++ [event_of oracle AtPage (Answer q page k) log]).
Proof.
  cbn [locate]. unfold mbind, M_bind at 1. rewrite answer_run.
  destruct (decode _) as [page_answer c]. simpl.
  by destruct (String.eqb page_answer answer).
Qed.

Lemma locate_spec q k answer cands log :
  ∃ evs, (locate oracle q k answer cands log).2 = log ++ evs
         ∧ Forall (fun e => ev_site e = AtPage) evs
         ∧ ∀ idx, (locate oracle q k answer cands log).1 = Some idx →
                  idx ∈ cands.*1.
Proof.
  revert log. induction cands as [|[idx page] rest IH]; intros log.
  - exists []. simpl. rewrite app_nil_r. by repeat split.
  - rewrite locate_cons.
    destruct (String.eqb _ answer).
    + eexists [_]. simpl. repeat split; [by repeat constructor|].
      intros ? [= ->]. by left.
    + destruct (IH (log ++ [event_of oracle AtPage (Answer q page k) log]))
        as (evs & Hlog & Hsites & Hidx).
      exists (event_of oracle AtPage (Answer q page k) log :: evs).
      rewrite Hlog, <- app_assoc. repeat split; [by constructor|].
      intros i Hi. right. by apply Hidx.
Qed.

(** One batch: the log grows by the batch query and by page queries; the
    best changes only when the batch answer is accepted. *)
Lemma try_batch_spec q k cands st log :
  let r := oracle (map ev_call log) (Answer q (batch_context_of cands) k) in
  ∃ evs st',
    try_batch oracle q k cands st log
    = (st', log ++ event_of oracle AtBatch (Answer q (batch_context_of cands) k) log :: evs)
    ∧ Forall (fun e => ev_site e = AtPage) evs
    ∧ if (PrimFloat.ltb (best_confidence st) (decode r).2
          && negb (String.eqb (decode r).1 "N/A"))%bool
      then best_answer st' = (decode r).1
           ∧ best_confidence st' = (decode r).2
           ∧ (best_page_idx st' = best_page_idx st
              ∨ ∃ idx, idx ∈ cands.*1 ∧ best_page_idx st' = Z.of_nat idx)
      else st' = st ∧ evs = [].
Proof.
  intros r. unfold try_batch, mbind, M_bind at 1. rewrite answer_run.
  fold r. destruct (decode r) as [answer confidence] eqn:Hr. cbn [fst snd].
  destruct (PrimFloat.ltb _ _ && negb _)%bool eqn:Hacc.
  - unfold mbind, M_bind, mret, M_ret.
    destruct (locate_spec q k answer cands
                (log ++ [event_of oracle AtBatch (Answer q (batch_context_of cands) k) log]))
      as (evs & Hlog & Hsites & Hidx).
    destruct (locate _ _ _ _ _ _) as [found log'] eqn:Hloc. simpl in *.
    subst log'. exists evs. eexists. rewrite <- app_assoc. simpl.
    split; [reflexivity|]. split; [exact Hsites|]. simpl.
    split; [done|]. split; [done|].
    destruct found as [idx|]; [right|by left].
    exists idx. split; [by apply Hidx|done].
  - exists [], st. by repeat split.
Qed.

End LoopFacts.

Lemma ltb_0_09 : PrimFloat.ltb 0 0.9 = true.
Proof. reflexivity. Qed.
Lemma ltb_0_0 : PrimFloat.ltb 0 0 = false.
Proof. reflexivity. Qed.
Lemma ltb_09_09 : PrimFloat.ltb 0.9 0.9 = false.
Proof. reflexivity. Qed.
Lemma ltb_09_0 : PrimFloat.ltb 0.9 0 = false.
Proof. reflexivity. Qed.

Lemma batch_events_app evs1 evs2 :
  batch_events (evs1 ++ evs2) = batch_events evs1 ++ batch_events evs2.
Proof. apply List.filter_app. Qed.

Lemma batch_events_other evs :
  Forall (fun e => ev_site e ≠ AtBatch) evs → batch_events evs = [].
Proof.
  induction 1 as [|e evs He _ IH]; [done|].
  unfold batch_events in *. simpl. by destruct (ev_site e).
Qed.

Lemma batch_events_pages evs :
  Forall (fun e => ev_site e = AtPage) evs → batch_events evs = [].
Proof.
  intros H. apply batch_events_other.
  eapply Forall_impl; [exact H|]. by intros e ->.
Qed.

Lemma batch_answers_app evs1 evs2 :
  batch_answers (evs1 ++ evs2) = batch_answers evs1 ++ batch_answers evs2.
Proof. unfold batch_answers. by rewrite batch_events_app, map_app. Qed.

Lemma batch_calls_app evs1 evs2 :
  batch_calls (evs1 ++ evs2) = batch_calls evs1 ++ batch_calls evs2.
Proof. unfold batch_calls. by rewrite batch_events_app, map_app. Qed.

Lemma batch_answers_pages evs :
  Forall (fun e => ev_site e = AtPage) evs → batch_answers evs = [].
Proof. intros H. unfold batch_answers. by rewrite batch_events_pages. Qed.

Lemma first_found_not_sentinel answers s :
  first_found answers = Some s → s ≠ "N/A".
Proof.
  intros [_ H]%find_some ->. by rewrite String.eqb_refl in H.
Qed.

Lemma first_found_snoc answers x :
  first_found (answers ++ [x])
  = match first_found answers with
    | Some s => Some s
    | None => if String.eqb x "N/A" then None else Some x
    end.
Proof.
  unfold first_found. induction answers as [|y answers IH]; simpl.
  - by destruct (String.eqb x "N/A").
  - by destruct (String.eqb y "N/A").
Qed.

Lemma for_each_inv {A S} (I : S → list Event → Prop)
    (xs : list A) (body : A → S → M S) st log :
  I st log →
  (∀ x st log, x ∈ xs → I st log → I (body x st log).1 (body x st log).2) →
  I (for_each xs body st log).1 (for_each xs body st log).2.
Proof.
  revert st log. induction xs as [|x xs IH]; intros st log HI Hbody; [done|].
  cbn [for_each]. unfold mbind, M_bind.
  pose proof (Hbody x st log ltac:(left) HI) as Hx.
  destruct (body x st log) as [st1 log1]. simpl in Hx.
  apply IH; [exact Hx|]. intros y ?? Hy. apply Hbody. by right.
Qed.

Section Selection.

Variable oracle : Oracle.

Lemma Inv_initial log0 pages : Inv log0 pages initial_best log0.
Proof.
  exists []. rewrite app_nil_r. repeat split; [by left|simpl; lia].
Qed.

(** An accepted answer is kept: the next batch leaves the best as it
    is. *)
Lemma try_batch_sticky q k cands st log :
  Best_ok st → best_answer st ≠ "N/A" →
  (try_batch oracle q k cands st log).1 = st.
Proof.
  intros [[Hna _]|[_ Hconf]] Hans; [done|].
  destruct (try_batch_spec oracle q k cands st log) as (evs & st' & -> & _ & H).
  rewrite Hconf in H.
  destruct (oracle _ _); simpl in H;
    rewrite ?ltb_09_09, ?ltb_09_0 in H; simpl in H; by destruct H.
Qed.

Lemma try_batch_inv log0 pages q k cands st log :
  Forall (fun idx => (idx < length pages)%nat) cands.*1 →
  Inv log0 pages st log →
  Inv log0 pages (try_batch oracle q k cands st log).1
                 (try_batch oracle q k cands st log).2.
Proof.
  intros Hcands (new & -> & Hok & Hans & Hpage).
  destruct (try_batch_spec oracle q k cands st (log0 ++ new))
    as (evs & st' & -> & Hsites & H). cbn [fst snd].
  set (ev := event_of oracle AtBatch _ _) in *.
  exists (new ++ ev :: evs). split; [by rewrite app_assoc|].
  assert (Hbatch : batch_answers (new ++ ev :: evs)
                   = batch_answers new ++ [(decode (ev_reply ev)).1]).
  { rewrite batch_answers_app. f_equal.
    change (ev :: evs) with ([ev] ++ evs).
    by rewrite batch_answers_app, (batch_answers_pages evs Hsites). }
  rewrite Hbatch, first_found_snoc. subst ev. cbn [ev_reply event_of].
  set (r := oracle _ _) in *.
  destruct Hok as [[Hna Hconf]|[Hna Hconf]]; rewrite Hconf in H.
  - assert (Hnone : first_found (batch_answers new) = None).
    { destruct (first_found (batch_answers new)) as [s|] eqn:Hs; [|done].
      apply first_found_not_sentinel in Hs. simpl in Hans. congruence. }
    rewrite Hnone. destruct r as [content|]; simpl in H |- *.
    + rewrite ?ltb_0_09 in H. simpl in H.
      destruct (String.eqb_spec (Py.strip content) "N/A") as [Heq|Hne];
        simpl in H.
      * destruct H as [-> ->]. repeat split; [by left|by rewrite Hna|done].
      * destruct H as (Ha & Hc & Hp).
        split; [right; split; [congruence|done]|]. split; [done|].
        destruct Hp as [-> | (idx & Hidx & ->)]; [done|].
        rewrite Forall_forall in Hcands. specialize (Hcands _ Hidx). lia.
    + rewrite ?ltb_0_0 in H. simpl in H. destruct H as [-> ->].
      repeat split; [by left|by rewrite Hna|done].
  - assert (Hsame : st' = st).
    { destruct r; simpl in H; rewrite ?ltb_09_09, ?ltb_09_0 in H;
        simpl in H; by destruct H. }
    subst st'.
    destruct (first_found (batch_answers new)) as [s|] eqn:Hs;
      [|simpl in Hans; congruence].
    repeat split; [by right|done|done].
Qed.

Lemma priority_body_inv log0 q k pages i st log :
  Inv log0 pages st log →
  Inv log0 pages
    (priority_body oracle q k pages (priority_pages_of q pages) i st log).1
    (priority_body oracle q k pages (priority_pages_of q pages) i st log).2.
Proof.
  intros HI. unfold priority_body. apply try_batch_inv; [|exact HI].
  rewrite <- list_fmap_compose. simpl. rewrite list_fmap_id.
  pose proof (priority_pages_in_range q pages) as Hrange.
  rewrite Forall_forall in Hrange |- *. intros idx Hidx. apply Hrange.
  unfold slice in Hidx. by apply subseteq_take, subseteq_drop in Hidx.
Qed.

Lemma remaining_body_inv log0 q k pages pp i st log :
  Inv log0 pages st log →
  Inv log0 pages (remaining_body oracle q k pages pp i st log).1
                 (remaining_body oracle q k pages pp i st log).2.
Proof.
  intros HI. unfold remaining_body.
  destruct (already_processed pp i); [exact HI|].
  apply try_batch_inv; [|exact HI].
  apply Forall_forall. intros idx Hidx.
  apply list_elem_of_fmap in Hidx as ([idx' page] & -> & Hin).
  apply elem_of_lookup_imap in Hin as (j & page' & [= -> ->] & Hj).
  unfold slice in Hj. apply lookup_take_Some in Hj as [Hj _].
  rewrite lookup_drop in Hj. simpl. by eapply lookup_lt_Some.
Qed.

Lemma try_batch_calls q k cands st log :
  ∃ evs, (try_batch oracle q k cands st log).2 = log ++ evs
         ∧ batch_calls evs = [Answer q (batch_context_of cands) k].
Proof.
  destruct (try_batch_spec oracle q k cands st log) as (evs & st' & -> & Hsites & _).
  eexists. split; [reflexivity|].
  change (?e :: evs) with ([e] ++ evs).
  rewrite batch_calls_app. unfold batch_calls at 2.
  by rewrite (batch_events_pages evs Hsites).
Qed.

(** The batch queries of a loop are those of its iterations, in order. *)
Lemma for_each_calls {A S} (f : A → list Call) (xs : list A)
    (body : A → S → M S) st log :
  (∀ x st log, ∃ evs, (body x st log).2 = log ++ evs ∧ batch_calls evs = f x) →
  ∃ evs, (for_each xs body st log).2 = log ++ evs
         ∧ batch_calls evs = concat (map f xs).
Proof.
  intros Hbody. revert st log. induction xs as [|x xs IH]; intros st log.
  - exists []. by rewrite app_nil_r.
  - cbn [for_each]. unfold mbind, M_bind.
    destruct (Hbody x st log) as (evs1 & Hlog1 & Hcalls1).
    destruct (body x st log) as [st1 log1]. simpl in Hlog1. subst log1.
    destruct (IH st1 (log ++ evs1)) as (evs2 & Hlog2 & Hcalls2).
    exists (evs1 ++ evs2). rewrite Hlog2, app_assoc. split; [done|].
    rewrite batch_calls_app, Hcalls1, Hcalls2. done.
Qed.

Lemma priority_pass_calls q k pages st log :
  ∃ evs,
    (for_each (batch_starts (length (priority_pages_of q pages)))
       (priority_body oracle q k pages (priority_pages_of q pages)) st log).2
    = log ++ evs
    ∧ batch_calls evs = priority_queries q k pages.
Proof.
  unfold priority_queries. cbn zeta.
  generalize (batch_starts (length (priority_pages_of q pages))). intros starts.
  destruct (for_each_calls
              (fun i => [Answer q
                           (batch_context_of
                              (map (fun idx => (idx, page_at pages idx))
                                   (slice i (priority_pages_of q pages)))) k])
              starts (priority_body oracle q k pages (priority_pages_of q pages))
              st log) as (evs & Hlog & Hcalls).
  { intros i st' log'. apply try_batch_calls. }
  exists evs. split; [done|]. rewrite Hcalls.
  clear. induction starts as [|i starts IH]; simpl; [done|]. by rewrite IH.
Qed.

Lemma remaining_pass_calls q k pages st log :
  ∃ evs,
    (for_each (batch_starts (length pages))
       (remaining_body oracle q k pages (priority_pages_of q pages)) st log).2
    = log ++ evs
    ∧ batch_calls evs = remaining_queries q k pages.
Proof.
  unfold remaining_queries. cbn zeta.
  generalize (batch_starts (length pages)). intros starts.
  destruct (for_each_calls
              (fun i => if already_processed (priority_pages_of q pages) i
                        then []
                        else [Answer q
                                (batch_context_of
                                   (imap (fun j page => ((i + j)%nat, page))
                                         (slice i pages))) k])
              starts (remaining_body oracle q k pages (priority_pages_of q pages))
              st log) as (evs & Hlog & Hcalls).
  { intros i st' log'. unfold remaining_body.
    destruct (already_processed _ i); [|apply try_batch_calls].
    exists []. by rewrite app_nil_r. }
  exists evs. split; [done|]. rewrite Hcalls.
  clear. induction starts as [|i starts IH]; simpl; [done|].
  rewrite IH. by destruct (already_processed _ i).
Qed.

(** The run of the evidence loops: the batch queries of the priority
    pages come first, those of the remaining windows follow only when no
    priority batch gave an answer, and the record holds the first answer
    found. *)
Lemma select_answer_trace q k sha pages log :
  ∃ new1 new2,
    (select_answer oracle q k sha pages log).2 = log ++ new1 ++ new2
    ∧ batch_calls new1 = priority_queries q k pages
    ∧ (is_Some (first_found (batch_answers new1)) → new2 = [])
    ∧ (first_found (batch_answers new1) = None →
       batch_calls new2 = remaining_queries q k pages)
    ∧ question_text (select_answer oracle q k sha pages log).1 = q
    ∧ value (select_answer oracle q k sha pages log).1
      = default "N/A" (first_found (batch_answers (new1 ++ new2)))
    ∧ (references (select_answer oracle q k sha pages log).1 = []
       ∨ ∃ idx, 0 <= idx < Z.of_nat (length pages)
                ∧ references (select_answer oracle q k sha pages log).1
                  = [{| pdf_sha1 := sha; page_index := idx |}]).
Proof.
  unfold select_answer, mbind, M_bind, mret, M_ret.
  pose proof (for_each_inv (Inv log pages)
                (batch_starts (length (priority_pages_of q pages)))
                (priority_body oracle q k pages (priority_pages_of q pages))
                initial_best log (Inv_initial log pages)) as H1.
  destruct (priority_pass_calls q k pages initial_best log)
    as (new1 & Hlog1 & Hcalls1).
  destruct (for_each _ _ initial_best log) as [st1 log1]. simpl in H1, Hlog1.
  subst log1.
  assert (HI1 : Inv log pages st1 (log ++ new1)).
  { apply H1. intros. by apply priority_body_inv. }
  clear H1.
  assert (Hans1 : best_answer st1
                  = default "N/A" (first_found (batch_answers new1))).
  { destruct HI1 as (new & Heq & _ & Hans & _).
    apply app_inv_head in Heq. by subst new. }
  assert (∃ st2 new2,
    (if String.eqb (best_answer st1) "N/A"
     then for_each (batch_starts (length pages))
            (remaining_body oracle q k pages (priority_pages_of q pages)) st1
     else (fun log => (st1, log))) (log ++ new1) = (st2, log ++ new1 ++ new2)
    ∧ Inv log pages st2 (log ++ new1 ++ new2)
    ∧ (is_Some (first_found (batch_answers new1)) → new2 = [])
    ∧ (first_found (batch_answers new1) = None →
       batch_calls new2 = remaining_queries q k pages))
    as (st2 & new2 & Heq & HI2 & Hsome & Hnone).
  { destruct (String.eqb_spec (best_answer st1) "N/A") as [Hna|Hna].
    - pose proof (for_each_inv (Inv log pages) (batch_starts (length pages))
                    (remaining_body oracle q k pages (priority_pages_of q pages))
                    st1 (log ++ new1) HI1) as H2.
      destruct (remaining_pass_calls q k pages st1 (log ++ new1))
        as (new2 & Hlog2 & Hcalls2).
      destruct (for_each _ _ st1 (log ++ new1)) as [st2 log2].
      simpl in H2, Hlog2. subst log2.
      exists st2, new2. rewrite <- app_assoc. split; [done|].
      split; [rewrite app_assoc; apply H2; intros; by apply remaining_body_inv|].
      split; [|done].
      intros [s Hs]. pose proof (first_found_not_sentinel _ _ Hs) as Hne.
      rewrite Hs in Hans1. simpl in Hans1. congruence.
    - exists st1, []. rewrite !app_nil_r. split; [done|]. split; [done|].
      split; [done|]. intros Hnone. rewrite Hnone in Hans1. done. }
  rewrite Heq. simpl.
  exists new1, new2. split; [done|]. split; [done|]. split; [done|].
  split; [done|]. split; [done|].
  destruct HI2 as (new & Hnew & _ & Hans & Hpage).
  apply app_inv_head in Hnew. subst new.
  split; [exact Hans|].
  destruct (Z.leb_spec 0 (best_page_idx st2)); [right|by left].
  exists (best_page_idx st2). split; [lia|done].
Qed.

(** The record that the evidence loops produce. *)
Lemma select_answer_spec q k sha pages log :
  ∃ new,
    (select_answer oracle q k sha pages log).2 = log ++ new
    ∧ question_text (select_answer oracle q k sha pages log).1 = q
    ∧ value (select_answer oracle q k sha pages log).1
      = default "N/A" (first_found (batch_answers new))
    ∧ (references (select_answer oracle q k sha pages log).1 = []
       ∨ ∃ idx, 0 <= idx < Z.of_nat (length pages)
                ∧ references (select_answer oracle q k sha pages log).1
                  = [{| pdf_sha1 := sha; page_index := idx |}]).
Proof.
  destruct (select_answer_trace q k sha pages log)
    as (new1 & new2 & Hlog & _ & _ & _ & Hq & Hval & Hrefs).
  by exists (new1 ++ new2).
Qed.

End Selection.

(** ** Oracle failures *)

(** C4. When a request to the model raises, [answer_question_with_llm]
    returns the sentinel "N/A" with confidence 0.0 and does not raise.  In
    both evidence loops a batch whose request fails leaves the best
    answer, the best confidence and the best page index as they were, and
    the loop goes on with the next batch; in the localisation of an
    accepted answer a page whose request fails is passed over and the
    search goes on with the next page. *)
Theorem oracle_failure_absorbed (oracle : Oracle) (q k : string) :
  (∀ site ctx log,
     oracle (map ev_call log) (Answer q ctx k) = None →
     answer_question_with_llm oracle site q ctx k log
     = (("N/A", 0%float), log ++ [event_of oracle site (Answer q ctx k) log]))
  ∧ (∀ cands st log,
       oracle (map ev_call log) (Answer q (batch_context_of cands) k) = None →
       try_batch oracle q k cands st log
       = (st, log ++ [event_of oracle AtBatch
                        (Answer q (batch_context_of cands) k) log]))
  ∧ (∀ pages pp i rest st log,
       let cands := map (fun idx => (idx, page_at pages idx)) (slice i pp) in
       oracle (map ev_call log) (Answer q (batch_context_of cands) k) = None →
       for_each (i :: rest) (priority_body oracle q k pages pp) st log
       = for_each rest (priority_body oracle q k pages pp) st
           (log ++ [event_of oracle AtBatch
                      (Answer q (batch_context_of cands) k) log]))
  ∧ (∀ pages pp i rest st log,
       let cands := imap (fun j page => ((i + j)%nat, page)) (slice i pages) in
       already_processed pp i = false →
       oracle (map ev_call log) (Answer q (batch_context_of cands) k) = None →
       for_each (i :: rest) (remaining_body oracle q k pages pp) st log
       = for_each rest (remaining_body oracle q k pages pp) st
           (log ++ [event_of oracle AtBatch
                      (Answer q (batch_context_of cands) k) log]))
  ∧ (∀ answer idx page rest log,
       answer ≠ "N/A" →
       oracle (map ev_call log) (Answer q page k) = None →
       locate oracle q k answer ((idx, page) :: rest) log
       = locate oracle q k answer rest
           (log ++ [event_of oracle AtPage (Answer q page k) log])).
Proof.
  assert (Hbatch : ∀ cands st log,
       oracle (map ev_call log) (Answer q (batch_context_of cands) k) = None →
       try_batch oracle q k cands st log
       = (st, log ++ [event_of oracle AtBatch
                        (Answer q (batch_context_of cands) k) log])).
  { intros cands st log Hfail.
    destruct (try_batch_spec oracle q k cands st log) as (evs & st' & -> & _ & H).
    rewrite Hfail in H. simpl in H.
    rewrite andb_false_r in H. by destruct H as [-> ->]. }
  split; [|split; [exact Hbatch|split; [|split]]].
  - intros site ctx log Hfail. by rewrite answer_run, Hfail.
  - intros pages pp i rest st log cands Hfail.
    cbn [for_each]. unfold mbind, M_bind at 1.
    unfold priority_body at 1. fold cands. by rewrite (Hbatch cands st log Hfail).
  - intros pages pp i rest st log cands Hfresh Hfail.
    cbn [for_each]. unfold mbind, M_bind at 1.
    unfold remaining_body at 1. rewrite Hfresh. fold cands.
    by rewrite (Hbatch cands st log Hfail).
  - intros answer idx page rest log Hans Hfail.
    rewrite locate_cons, Hfail. cbn [decode fst].
    destruct (String.eqb_spec "N/A" answer); [congruence|done].
Qed.

Lemma oracle_failure_absorbed_witness :
  answer_question_with_llm silent AtBatch "q" "ctx" "number" []
  = (("N/A", 0%float), [event_of silent AtBatch (Answer "q" "ctx" "number") []]).
Proof.
  apply (oracle_failure_absorbed silent "q" "number"). reflexivity.
Defined.

(** ** The stages of process_question *)

Lemma batch_answers_names evs :
  Forall (fun e => ev_site e = AtName ∧ is_answer_call e = false) evs →
  batch_answers evs = [].
Proof.
  intros H. unfold batch_answers. rewrite batch_events_other; [done|].
  eapply Forall_impl; [exact H|]. by intros e [-> _].
Qed.

Section Stages.

Variable oracle : Oracle.

Lemma try_patterns_log ps q log :
  ∃ evs, (try_patterns oracle ps q log).2 = log ++ evs
         ∧ Forall (fun e => ev_site e = AtName ∧ is_answer_call e = false) evs.
Proof.
  induction ps as [|p ps IH]; simpl.
  - eexists [_]. split; [reflexivity|]. by repeat constructor.
  - destruct (Re.search_group p q); [|exact IH].
    exists []. by rewrite app_nil_r.
Qed.

(** Once the company name, the document id, the file and its pages are
    there, the result is decided by the metadata checks. *)
Lemma process_question_resolved a qd log name log1 sha pages :
  extract_company_name oracle (text qd) log = (Some name, log1) →
  name ≠ "" →
  find_pdf_for_company a name = Some sha →
  sha ≠ "" →
  pdf_dir a !! sha = Some pages →
  pages ≠ [] →
  process_question oracle a qd log
  = if short_circuits (text qd) (kind qd) (sha1_to_meta a !! sha)
    then (denied (text qd) sha, log1)
    else select_answer oracle (text qd) (kind qd) sha pages log1.
Proof.
  intros Hname Hne Hfind Hsha Hfile Hpages.
  unfold process_question, mbind, M_bind at 1. rewrite Hname.
  destruct name as [|c name]; [done|]. cbn [Py.truthy_str negb].
  rewrite Hfind. destruct sha as [|c' sha]; [done|]. cbn [Py.truthy_str negb].
  rewrite Hfile. destruct pages as [|page pages]; [done|].
  unfold short_circuits.
  by repeat destruct (denied_by_metadata _ _ _ _ _).
Qed.

(** Every run of [process_question] ends in one of three ways. *)
Lemma process_question_cases a qd log :
  ∃ evs,
    Forall (fun e => ev_site e = AtName ∧ is_answer_call e = false) evs
    ∧ (process_question oracle a qd log = (unresolved (text qd), log ++ evs)
       ∨ ∃ name sha pages,
           find_pdf_for_company a name = Some sha
           ∧ pdf_dir a !! sha = Some pages
           ∧ pages ≠ []
           ∧ (process_question oracle a qd log
              = (denied (text qd) sha, log ++ evs)
              ∨ process_question oracle a qd log
                = select_answer oracle (text qd) (kind qd) sha pages
                    (log ++ evs))).
Proof.
  destruct (try_patterns_log patterns (text qd) log) as (evs & Hlog & Hevs).
  fold (extract_company_name oracle (text qd) log) in Hlog.
  exists evs. split; [exact Hevs|].
  destruct (extract_company_name oracle (text qd) log) as [name log1] eqn:Hname.
  simpl in Hlog. subst log1.
  assert (Hun : ∀ (P : Prop),
            process_question oracle a qd log = (unresolved (text qd), log ++ evs) →
            process_question oracle a qd log = (unresolved (text qd), log ++ evs) ∨ P)
    by (intros; by left).
  destruct name as [name|]; last first.
  { apply Hun. unfold process_question, mbind, M_bind at 1. by rewrite Hname. }
  destruct (decide (name = "")) as [->|Hne].
  { apply Hun. unfold process_question, mbind, M_bind at 1. by rewrite Hname. }
  destruct (find_pdf_for_company a name) as [sha|] eqn:Hfind; last first.
  { apply Hun. unfold process_question, mbind, M_bind at 1. rewrite Hname.
    destruct name; [done|]. cbn [Py.truthy_str negb]. by rewrite Hfind. }
  destruct (decide (sha = "")) as [->|Hsha].
  { apply Hun. unfold process_question, mbind, M_bind at 1. rewrite Hname.
    destruct name; [done|]. cbn [Py.truthy_str negb]. by rewrite Hfind. }
  destruct (pdf_dir a !! sha) as [pages|] eqn:Hfile; last first.
  { apply Hun. unfold process_question, mbind, M_bind at 1. rewrite Hname.
    destruct name; [done|]. cbn [Py.truthy_str negb]. rewrite Hfind.
    destruct sha; [done|]. cbn [Py.truthy_str negb]. by rewrite Hfile. }
  destruct (decide (pages = [])) as [->|Hpages].
  { apply Hun. unfold process_question, mbind, M_bind at 1. rewrite Hname.
    destruct name; [done|]. cbn [Py.truthy_str negb]. rewrite Hfind.
    destruct sha; [done|]. cbn [Py.truthy_str negb]. by rewrite Hfile. }
  right. exists name, sha, pages. repeat split; [done..|].
  rewrite (process_question_resolved a qd log name (log ++ evs) sha pages)
    by done.
  destruct (short_circuits _ _ _); [by left|by right].
Qed.

End Stages.

(** ** The first answer wins *)

(** C9. A request that succeeds yields confidence 0.9.  The best starts
    as the sentinel with confidence 0.0, and stays either that or an
    accepted answer with confidence 0.9; once it is an accepted answer no
    later batch changes it.  The evidence loops make the batch queries of
    the priority pages first and those of the remaining windows only when
    no priority batch gave an answer, and the value they return is the
    answer of the first batch query, in that order, that is not the
    sentinel, and the sentinel when there is none.  Whenever
    [process_question] made such a batch query, its value is that
    answer. *)
Theorem first_answer_wins (oracle : Oracle) :
  (∀ site q ctx k log content,
     oracle (map ev_call log) (Answer q ctx k) = Some content →
     (answer_question_with_llm oracle site q ctx k log).1
     = (Py.strip content, 0.9%float))
  ∧ Best_ok initial_best
  ∧ (∀ log0 pages q k cands st log,
       Forall (fun idx => (idx < length pages)%nat) cands.*1 →
       Inv log0 pages st log →
       Inv log0 pages (try_batch oracle q k cands st log).1
                      (try_batch oracle q k cands st log).2)
  ∧ (∀ q k cands st log,
       Best_ok st → best_answer st ≠ "N/A" →
       (try_batch oracle q k cands st log).1 = st)
  ∧ (∀ q k sha pages log,
       ∃ new1 new2,
         (select_answer oracle q k sha pages log).2 = log ++ new1 ++ new2
         ∧ batch_calls new1 = priority_queries q k pages
         ∧ (is_Some (first_found (batch_answers new1)) → new2 = [])
         ∧ (first_found (batch_answers new1) = None →
            batch_calls new2 = remaining_queries q k pages)
         ∧ value (select_answer oracle q k sha pages log).1
           = default "N/A" (first_found (batch_answers (new1 ++ new2))))
  ∧ (∀ a qd log,
       ∃ new, (process_question oracle a qd log).2 = log ++ new
              ∧ ∀ s, first_found (batch_answers new) = Some s →
                     value (process_question oracle a qd log).1 = s).
Proof.
  split; [|split; [by left|split; [|split; [|split]]]].
  - intros site q ctx k log content Hr. by rewrite answer_run, Hr.
  - intros. by apply try_batch_inv.
  - intros. by apply try_batch_sticky.
  - intros q k sha pages log.
    destruct (select_answer_trace oracle q k sha pages log)
      as (new1 & new2 & Hlog & Hcalls & Hskip & Hrest & _ & Hval & _).
    by exists new1, new2.
  - intros a qd log.
    destruct (process_question_cases oracle a qd log)
      as (evs & Hevs & [->|(name & sha & pages & _ & _ & _ & [->| ->])]).
    + exists evs. split; [done|]. intros s.
      by rewrite (batch_answers_names evs Hevs).
    + exists evs. split; [done|]. intros s.
      by rewrite (batch_answers_names evs Hevs).
    + destruct (select_answer_spec oracle (text qd) (kind qd) sha pages (log ++ evs))
        as (new & Hlog & _ & Hval & _).
      exists (evs ++ new). split; [by rewrite Hlog, app_assoc|].
      intros s. rewrite batch_answers_app, (batch_answers_names evs Hevs).
      simpl. intros Hs. by rewrite Hval, Hs.
Qed.

Lemma first_answer_wins_witness :
  Best_ok {| best_answer := "7"; best_page_idx := 0; best_confidence := 0.9 |}
  ∧ (try_batch labelled_only "q" "number" [(1%nat, "page one")]
       {| best_answer := "7"; best_page_idx := 0; best_confidence := 0.9 |} []).1
    = {| best_answer := "7"; best_page_idx := 0; best_confidence := 0.9 |}.
Proof.
  assert (Hok : Best_ok {| best_answer := "7"; best_page_idx := 0;
                           best_confidence := 0.9 |}) by (by right).
  split; [exact Hok|].
  destruct (first_answer_wins labelled_only) as (_ & _ & _ & Hsticky & _).
  apply Hsticky; [exact Hok|discriminate].
Defined.

(** ** References *)

(** C7. The record that [process_question] returns has at most one
    reference, and a reference names the resolved document, whose file
    exists with a non-empty page sequence, and an index of that
    sequence. *)
Theorem references_valid (oracle : Oracle) (a : PDFQuestionAnswerer)
    (qd : Question) (log : list Event) :
  (length (references (process_question oracle a qd log).1) <= 1)%nat
  ∧ ∀ ref, ref ∈ references (process_question oracle a qd log).1 →
      ∃ name pages,
        find_pdf_for_company a name = Some (pdf_sha1 ref)
        ∧ pdf_dir a !! pdf_sha1 ref = Some pages
        ∧ pages ≠ []
        ∧ 0 <= page_index ref < Z.of_nat (length pages).
Proof.
  destruct (process_question_cases oracle a qd log)
    as (evs & _ & [->|(name & sha & pages & Hfind & Hfile & Hpages & [-> | ->])]).
  - simpl. split; [lia|]. intros ref H. by apply elem_of_nil in H.
  - simpl. split; [lia|]. intros ref ->%list_elem_of_singleton.
    exists name, pages. simpl. repeat split; [done..|].
    destruct pages; [done|]. simpl. lia.
  - destruct (select_answer_spec oracle (text qd) (kind qd) sha pages (log ++ evs))
      as (new & _ & _ & _ & [-> | (idx & Hidx & ->)]).
    + simpl. split; [lia|]. intros ref H. by apply elem_of_nil in H.
    + simpl. split; [lia|]. intros ref ->%list_elem_of_singleton.
      exists name, pages. simpl. repeat split; [done..|lia|lia].
Qed.

(** ** The metadata short-circuit *)







(** The scenario of the specification, with the file of the document in
    place. *)
Example scenario_short_circuit :
  process_question silent (init {["abc123" := ["Annual report"]]} [acme] [])
    buyback_question []
  = ({| question_text := text buyback_question;
        value := "False";
        references := [{| pdf_sha1 := "abc123"; page_index := 0 |}] |}, []).
Proof. reflexivity. Qed.

(** ** An answer without a reference *)

(** C10. There are inputs for which [process_question] returns a value
    other than "N/A" with no reference: page 0 is the only priority page,
    the answer of its batch is accepted, the query on page 0 alone does
    not repeat that answer, so the page index stays -1; and the pass over
    the remaining pages, whose batch of page 5 was not processed, is not
    run, since the log has no third request. *)
Theorem answer_without_reference :
  priority_pages_of (text report_question) report = [0%nat]
  ∧ already_processed [0%nat] 5 = false
  ∧ process_question labelled_only (init {["abc123" := report]} [acme] [])
      report_question []
    = ({| question_text := text report_question;
          value := "42";
          references := [] |},
       [ {| ev_site := AtBatch;
            ev_call := Answer (text report_question)
                         "Page 0: Consolidated financial statements" "number";
            ev_reply := Some "42" |};
         {| ev_site := AtPage;
            ev_call := Answer (text report_question)
                         "Consolidated financial statements" "number";
            ev_reply := Some "N/A" |} ]).
Proof. repeat split; vm_compute; reflexivity. Qed.

(** When every batch answers "N/A" the record is the unresolved one; the
    window of pages 0 to 4 is asked once, as the batch of the priority
    page 0, and the window of page 5 once. *)
Example scenario_nothing_found :
  let run := process_question knows_nothing (init {["abc123" := report]} [acme] [])
               report_question [] in
  run.1 = unresolved (text report_question)
  ∧ map ev_site run.2 = [AtBatch; AtBatch].
Proof. split; vm_compute; reflexivity. Qed.

(** ** Pattern extraction *)

(** *** The matcher against the language of a program *)

Lemma plus_loop_sound cls lazy kont s pos r :
  Re.plus_loop cls lazy kont s pos = Some r →
  ∃ x xs rest,
    s = (x :: xs) ++ rest
    ∧ forallb cls (x :: xs) = true
    ∧ kont rest (pos + length (x :: xs))%nat = Some r.
Proof.
  revert pos. induction s as [|c s IH]; intros pos; simpl; [done|].
  destruct (cls c) eqn:Hc; [|done].
  assert (Hone : kont s (S pos) = Some r →
                 ∃ x xs rest, c :: s = (x :: xs) ++ rest
                   ∧ forallb cls (x :: xs) = true
                   ∧ kont rest (pos + length (x :: xs))%nat = Some r).
  { intros Hk. exists c, [], s. simpl. rewrite Hc, Nat.add_1_r. done. }
  assert (Hmore : Re.plus_loop cls lazy kont s (S pos) = Some r →
                  ∃ x xs rest, c :: s = (x :: xs) ++ rest
                    ∧ forallb cls (x :: xs) = true
                    ∧ kont rest (pos + length (x :: xs))%nat = Some r).
  { intros (x & xs & rest & -> & Hcls & Hk)%IH.
    exists c, (x :: xs), rest. split; [done|]. split.
    - change (forallb cls (c :: x :: xs)) with (cls c && forallb cls (x :: xs)).
      by rewrite Hc, Hcls.
    - rewrite <- Hk. f_equal. simpl. lia. }
  destruct lazy.
  - destruct (kont s (S pos)) as [r0|] eqn:Hk; [|exact Hmore].
    intros [= ->]. by apply Hone.
  - destruct (Re.plus_loop cls false kont s (S pos)) as [r0|] eqn:Hl; [|exact Hone].
    intros [= ->]. by apply Hmore.
Qed.

Lemma plus_loop_complete cls lazy kont xs :
  ∀ x rest pos,
    forallb cls (x :: xs) = true →
    is_Some (kont rest (pos + length (x :: xs))%nat) →
    is_Some (Re.plus_loop cls lazy kont ((x :: xs) ++ rest) pos).
Proof.
  induction xs as [|y xs IH]; intros x rest pos Hcls Hk.
  - simpl in *. rewrite andb_true_r in Hcls. rewrite Hcls.
    rewrite Nat.add_1_r in Hk.
    destruct lazy.
    + by destruct (kont rest (S pos)).
    + by destruct (Re.plus_loop cls false kont rest (S pos)).
  - change (forallb cls (x :: y :: xs)) with (cls x && forallb cls (y :: xs)) in Hcls.
    apply andb_true_iff in Hcls as [Hx Hrest].
    specialize (IH y rest (S pos) Hrest).
    replace (S pos + length (y :: xs))%nat with (pos + length (x :: y :: xs))%nat
      in IH by (simpl; lia).
    specialize (IH Hk).
    change ((x :: y :: xs) ++ rest) with (x :: ((y :: xs) ++ rest)).
    cbn [Re.plus_loop]. rewrite Hx.
    destruct lazy.
    + by destruct (kont ((y :: xs) ++ rest) (S pos)).
    + destruct (Re.plus_loop cls false kont ((y :: xs) ++ rest) (S pos)); [done|].
      by destruct IH.
Qed.

Lemma run_sound p :
  ∀ s pos m0 m1 r, Re.run p s pos m0 m1 = Some r → Re.accepts p s pos m0 m1 r.
Proof.
  induction p as [|o k IH]; intros s pos m0 m1 r; simpl.
  - intros [= <-]. constructor.
  - destruct o as [c|cls lazy| |].
    + destruct s as [|x s]; [done|].
      destruct (Ascii.eqb_spec c x) as [->|]; [|done].
      intros H. constructor. by apply IH.
    + intros (x & xs & rest & -> & Hcls & Hk)%plus_loop_sound.
      apply Re.acc_plus; [done|]. by apply IH.
    + intros H. constructor. by apply IH.
    + intros H. constructor. by apply IH.
Qed.

Lemma run_complete p s pos m0 m1 r :
  Re.accepts p s pos m0 m1 r → is_Some (Re.run p s pos m0 m1).
Proof.
  induction 1 as [ | c k s pos m0 m1 r _ IH | | | cls lazy k x xs s pos m0 m1 r Hcls _ IH];
    cbn [Re.run]; try done.
  - by rewrite Ascii.eqb_refl.
  - by apply (plus_loop_complete cls lazy _ xs x s pos).
Qed.

Lemma search_from_unfold p s pos :
  Re.search_from p s pos
  = match Re.run p s pos 0%nat 0%nat with
    | Some r => Some r
    | None =>
        match s with
        | [] => None
        | _ :: s' => Re.search_from p s' (S pos)
        end
    end.
Proof. by destruct s. Qed.

Lemma search_from_sound p s :
  ∀ pos r,
    Re.search_from p s pos = Some r →
    ∃ skipped rest,
      s = skipped ++ rest
      ∧ Re.accepts p rest (pos + length skipped)%nat 0%nat 0%nat r.
Proof.
  induction s as [|c s IH]; intros pos r; rewrite search_from_unfold.
  - destruct (Re.run p [] pos 0%nat 0%nat) as [r0|] eqn:Hrun; [|done].
    intros [= ->]. exists [], []. simpl. rewrite Nat.add_0_r.
    split; [done|]. by apply run_sound.
  - destruct (Re.run p (c :: s) pos 0%nat 0%nat) as [r0|] eqn:Hrun.
    + intros [= ->]. exists [], (c :: s). simpl. rewrite Nat.add_0_r.
      split; [done|]. by apply run_sound.
    + intros (skipped & rest & -> & Hacc)%IH.
      exists (c :: skipped), rest. split; [done|].
      replace (pos + length (c :: skipped))%nat with (S pos + length skipped)%nat
        by (simpl; lia).
      exact Hacc.
Qed.

Lemma search_from_complete p skipped :
  ∀ rest pos r,
    Re.accepts p rest (pos + length skipped)%nat 0%nat 0%nat r →
    is_Some (Re.search_from p (skipped ++ rest) pos).
Proof.
  induction skipped as [|c skipped IH]; intros rest pos r Hacc;
    rewrite search_from_unfold.
  - simpl in *. rewrite Nat.add_0_r in Hacc.
    apply run_complete in Hacc as [r0 ->]. done.
  - destruct (Re.run p ((c :: skipped) ++ rest) pos 0%nat 0%nat); [done|].
    simpl. apply (IH rest (S pos) r).
    replace (S pos + length skipped)%nat with (pos + length (c :: skipped))%nat
      by (simpl; lia).
    exact Hacc.
Qed.

(** [re.search] finds a match exactly when the text has one. *)
Lemma search_group_matches p text :
  is_Some (Re.search_group p text) ↔ Re.matches p text.
Proof.
  unfold Re.search_group, Re.matches. split.
  - destruct (Re.search_from p (list_ascii_of_string text) 0) as [[a b]|] eqn:Hs;
      [|by intros [? ?]].
    intros _. apply search_from_sound in Hs as (skipped & rest & Hsplit & Hacc).
    by exists skipped, rest, (a, b).
  - intros (skipped & rest & r & -> & Hacc).
    destruct (search_from_complete p skipped rest 0%nat r Hacc) as [[a b] ->].
    done.
Qed.

(** What the language of the first pattern, [For\s+([^,\.]+?),], is: the
    word, a run of spaces, a run of name characters, which is group 1, and
    a comma. *)
Lemma accepts_lit (w : string) (k : Re.prog) s pos m0 m1 r :
  Re.accepts (Re.lit w ++ k) s pos m0 m1 r ↔
  ∃ s', s = list_ascii_of_string w ++ s'
        ∧ Re.accepts k s' (pos + String.length w)%nat m0 m1 r.
Proof.
  revert s pos. induction w as [|c w IH]; intros s pos; simpl.
  - rewrite Nat.add_0_r. split; [by exists s|by intros (? & -> & ?)].
  - split.
    + inversion 1; subst.
      match goal with H : Re.accepts _ _ (S pos) _ _ _ |- _ =>
        apply IH in H as (s' & -> & Hacc) end.
      exists s'. split; [done|]. by rewrite <- Nat.add_succ_comm.
    + intros (s' & -> & Hacc). simpl. constructor. apply IH.
      exists s'. split; [done|]. by rewrite Nat.add_succ_comm.
Qed.

Lemma accepts_plus cls lazy (k : Re.prog) s pos m0 m1 r :
  Re.accepts (Re.Plus cls lazy :: k) s pos m0 m1 r ↔
  ∃ x xs s', s = (x :: xs) ++ s'
             ∧ forallb cls (x :: xs) = true
             ∧ Re.accepts k s' (pos + length (x :: xs))%nat m0 m1 r.
Proof.
  split.
  - inversion 1; subst. by eexists _, _, _.
  - intros (x & xs & s' & -> & Hcls & Hacc). by apply Re.acc_plus.
Qed.

Lemma for_pattern_language s pos r :
  Re.accepts (Re.lit "For" ++ Re.spaces ++ Re.name_group ++ Re.lit ",")
             s pos 0%nat 0%nat r ↔
  ∃ ws name rest,
    s = list_ascii_of_string "For" ++ ws ++ name ++ ","%char :: rest
    ∧ ws ≠ [] ∧ forallb Py.isspace ws = true
    ∧ name ≠ [] ∧ forallb Re.name_char name = true
    ∧ r = ((pos + 3 + length ws)%nat, (pos + 3 + length ws + length name)%nat).
Proof.
  rewrite accepts_lit. unfold Re.spaces, Re.name_group. cbn [app String.length].
  split.
  - intros (s1 & -> & (x & xs & s2 & -> & Hws & Hacc)%accepts_plus).
    inversion Hacc as [| |k' s' p' a0 a1 r' Hacc1| |]; subst.
    apply accepts_plus in Hacc1 as (y & ys & s3 & -> & Hname & Hacc2).
    inversion Hacc2 as [| | |k' s' p' a0 a1 r' Hacc3|]; subst.
    apply (accepts_lit "," []) in Hacc3 as (rest & -> & Hend).
    inversion Hend; subst.
    exists (x :: xs), (y :: ys), rest. repeat split; done.
  - intros (ws & name & rest & -> & Hws0 & Hws & Hname0 & Hname & ->).
    destruct ws as [|x xs]; [done|]. destruct name as [|y ys]; [done|].
    eexists. split; [reflexivity|].
    apply accepts_plus. exists x, xs, ((y :: ys) ++ ","%char :: rest).
    split; [done|]. split; [done|]. constructor.
    apply accepts_plus. exists y, ys, (","%char :: rest).
    split; [done|]. split; [done|]. constructor.
    apply (accepts_lit "," []). exists rest. split; [done|]. constructor.
Qed.

Lemma substring_app (u v w : list ascii) :
  String.substring (length u) (length v) (string_of_list_ascii (u ++ v ++ w))
  = string_of_list_ascii v.
Proof.
  induction u as [|c u IH]; [|exact IH].
  simpl. revert w. induction v as [|c v IH]; intros w; simpl.
  - by destruct (string_of_list_ascii w).
  - by rewrite IH.
Qed.

(** So the group that [re.search] returns for the first pattern is the run
    of name characters between the spaces after "For" and the comma. *)
Lemma for_pattern_group (text g : string) :
  Re.search_group (Re.lit "For" ++ Re.spaces ++ Re.name_group ++ Re.lit ",") text
  = Some g →
  ∃ before ws rest,
    list_ascii_of_string text
    = before ++ list_ascii_of_string "For" ++ ws ++ list_ascii_of_string g
        ++ ","%char :: rest
    ∧ ws ≠ [] ∧ forallb Py.isspace ws = true
    ∧ g ≠ "" ∧ forallb Re.name_char (list_ascii_of_string g) = true.
Proof.
  unfold Re.search_group.
  destruct (Re.search_from _ (list_ascii_of_string text) 0) as [[a b]|] eqn:Hs;
    [|done].
  intros [= <-].
  apply search_from_sound in Hs as (before & rest0 & Htext & Hacc).
  apply for_pattern_language in Hacc
    as (ws & name & rest & -> & Hws0 & Hws & Hname0 & Hname & [= -> ->]).
  assert (Hg : String.substring (length before + 3 + length ws)
                 (length before + 3 + length ws + length name
                  - (length before + 3 + length ws)) text
               = string_of_list_ascii name).
  { rewrite <- (string_of_list_ascii_of_string text), Htext.
    replace (length before + 3 + length ws + length name
             - (length before + 3 + length ws))%nat
      with (length name) by lia.
    replace (length before + 3 + length ws)%nat
      with (length (before ++ list_ascii_of_string "For" ++ ws))
      by (rewrite !length_app; simpl; lia).
    rewrite <- (substring_app (before ++ list_ascii_of_string "For" ++ ws)
                  name (","%char :: rest)).
    by rewrite <- !app_assoc. }
  simpl in Hg |- *.
  rewrite Hg, list_ascii_of_string_of_list_ascii.
  exists before, ws, rest. repeat split; try done.
  destruct name; [done|]. discriminate.
Qed.

(** *** The pattern loop *)

Lemma try_patterns_first (oracle : Oracle) pre p post q g log :
  Forall (fun p' => Re.search_group p' q = None) pre →
  Re.search_group p q = Some g →
  try_patterns oracle (pre ++ p :: post) q log = (Some (Py.strip g), log).
Proof.
  intros Hpre Hp. induction Hpre as [|p' pre Hp' _ IH]; simpl.
  - by rewrite Hp.
  - by rewrite Hp'.
Qed.

Lemma first_matching_pattern (ps : list Re.prog) (q : string) :
  Exists (fun p => Re.matches p q) ps →
  ∃ pre p post g,
    ps = pre ++ p :: post
    ∧ Forall (fun p' => ¬ Re.matches p' q) pre
    ∧ Forall (fun p' => Re.search_group p' q = None) pre
    ∧ Re.matches p q
    ∧ Re.search_group p q = Some g.
Proof.
  induction ps as [|p ps IH]; intros Hex; [by apply Exists_nil in Hex|].
  destruct (Re.search_group p q) as [g|] eqn:Hp.
  - exists [], p, ps, g. repeat split; [constructor..| |done].
    apply search_group_matches. by rewrite Hp.
  - assert (Hno : ¬ Re.matches p q).
    { intros Hm%search_group_matches. rewrite Hp in Hm. by destruct Hm. }
    apply Exists_cons in Hex as [Hm|Hex]; [done|].
    destruct (IH Hex) as (pre & p' & post & g & -> & Hpre & Hpre' & Hm & Hg).
    exists (p :: pre), p', post, g. repeat split; [by constructor..|done|done].
Qed.

(** C5. When the text of the question is in the language of at least one
    of the five patterns, [extract_company_name] returns the stripped
    group 1 that [re.search] captures for the first pattern of the list
    that matches, and the log is unchanged: the model is not asked. *)
Theorem pattern_extraction (oracle : Oracle) (q : string) (log : list Event) :
  Exists (fun p => Re.matches p q) patterns →
  ∃ pre p post g,
    patterns = pre ++ p :: post
    ∧ Forall (fun p' => ¬ Re.matches p' q) pre
    ∧ Re.matches p q
    ∧ Re.search_group p q = Some g
    ∧ extract_company_name oracle q log = (Some (Py.strip g), log).
Proof.
  intros (pre & p & post & g & Hsplit & Hpre & Hpre' & Hm & Hg)%first_matching_pattern.
  exists pre, p, post, g. repeat split; [done..|].
  unfold extract_company_name. rewrite Hsplit. by apply try_patterns_first.
Qed.

Lemma pattern_extraction_witness :
  ∃ pre p post g,
    patterns = pre ++ p :: post
    ∧ Forall (fun p' => ¬ Re.matches p' liberty_question) pre
    ∧ Re.matches p liberty_question
    ∧ Re.search_group p liberty_question = Some g
    ∧ extract_company_name silent liberty_question [] = (Some (Py.strip g), []).
Proof.
  apply (pattern_extraction silent liberty_question []).
  apply Exists_cons. right. apply Exists_cons. left.
  apply search_group_matches. vm_compute. by eexists.
Defined.

Example pattern_extraction_liberty :
  extract_company_name silent liberty_question []
  = (Some "Liberty Broadband Corporation", []).
Proof. reflexivity. Qed.

(** ** The single-question override *)




(** * Further properties *)

(** ** Batching *)

Lemma batch_starts_step (n : nat) :
  (0 < n)%nat →
  batch_starts n = 0%nat :: map (fun i => (batch_size + i)%nat)
                              (batch_starts (n - batch_size)).
Proof.
  intros Hn. unfold batch_starts, batch_size. change (5 - 1)%nat with 4%nat.
  assert (Hq : ((n + 4) / 5 = S ((n - 5 + 4) / 5))%nat).
  { pose proof (Nat.div_mod_eq (n + 4) 5).
    pose proof (Nat.mod_upper_bound (n + 4) 5 ltac:(lia)).
    pose proof (Nat.div_mod_eq (n - 5 + 4) 5).
    pose proof (Nat.mod_upper_bound (n - 5 + 4) 5 ltac:(lia)). lia. }
  rewrite Hq. cbn [seq map]. f_equal.
  rewrite <- fmap_S_seq, <- !list_fmap_compose.
  apply list_fmap_ext. intros _ k _. simpl. lia.
Qed.

Lemma slice_shift {A} (l : list A) (i : nat) :
  slice (batch_size + i) l = slice i (drop batch_size l).
Proof. unfold slice. by rewrite drop_drop. Qed.

Lemma batches_concat {A} (n : nat) :
  ∀ l : list A, (length l <= n)%nat →
    concat (map (fun i => slice i l) (batch_starts (length l))) = l.
Proof.
  induction n as [|n IH]; intros l Hlen.
  - destruct l; [done|simpl in Hlen; lia].
  - destruct l as [|x l]; [done|].
    rewrite batch_starts_step by (simpl; lia).
    cbn [map concat]. rewrite <- list_fmap_compose.
    rewrite (list_fmap_ext _ (fun i => slice i (drop batch_size (x :: l)))); last first.
    { intros _ i _. simpl. apply (slice_shift (x :: l) i). }
    rewrite <- (length_drop (x :: l) batch_size), IH.
    + unfold slice. rewrite drop_0. apply take_drop.
    + rewrite length_drop. simpl in *. unfold batch_size. lia.
Qed.

(** X1. Cutting a list into batches loses and repeats nothing: the slices
    [l[i:i+5]] for [i] in [range(0, len(l), 5)], put end to end, are the
    list again, and every slice has between one and five elements.  This
    holds for the priority pages and for the page sequence. *)
Theorem batches_partition {A} (l : list A) :
  concat (map (fun i => slice i l) (batch_starts (length l))) = l
  ∧ Forall (fun i => (1 <= length (slice i l) <= batch_size)%nat)
           (batch_starts (length l)).
Proof.
  split; [by apply (batches_concat (length l))|].
  apply Forall_forall. intros i [Hi _]%batch_starts_spec.
  unfold slice. rewrite length_take, length_drop. unfold batch_size. lia.
Qed.

(** ** The two indexes of [__init__] *)

Section DictMore.
Context {V : Type}.
Implicit Types (d : list (string * V)) (k : string) (v : V).

Lemma dict_set_keys k v d :
  (dict_set k v d).*1 = if decide (k ∈ d.*1) then d.*1 else d.*1 ++ [k].
Proof.
  induction d as [|[k' v'] d IH].
  - cbn [dict_set fmap list_fmap fst app].
    destruct (decide (k ∈ [])) as [H|_]; [by apply elem_of_nil in H|done].
  - cbn [dict_set]. destruct (String.eqb_spec k' k) as [->|Hne].
    + cbn [fmap list_fmap fst].
      destruct (decide (k ∈ k :: d.*1)) as [_|H]; [done|]. destruct H. by left.
    + cbn [fmap list_fmap fst] in *. rewrite IH.
      destruct (decide (k ∈ d.*1)) as [Hin|Hnin];
        destruct (decide (k ∈ k' :: d.*1)) as [Hin'|Hnin']; try done.
      * destruct Hnin'. by right.
      * apply elem_of_cons in Hin' as [?|?]; [congruence|done].
Qed.

Lemma dict_set_elem k v d k' v' :
  (k', v') ∈ dict_set k v d → (k' = k ∧ v' = v) ∨ (k', v') ∈ d.
Proof.
  induction d as [|[k0 v0] d IH]; simpl.
  - intros [= -> ->]%list_elem_of_singleton. by left.
  - destruct (String.eqb_spec k0 k) as [->|Hne].
    + intros [[= -> ->]|Hin]%elem_of_cons; [by left|]. right. by right.
    + intros [[= -> ->]|Hin]%elem_of_cons; [right; by left|].
      destruct (IH Hin) as [?|?]; [by left|]. right. by right.
Qed.

Lemma dict_get_elem k v d : dict_get k d = Some v → (k, v) ∈ d.
Proof.
  induction d as [|[k0 v0] d IH]; simpl; [done|].
  destruct (String.eqb_spec k0 k) as [->|Hne].
  - intros [= ->]. by left.
  - intros H. right. by apply IH.
Qed.
End DictMore.

Lemma lower_char_idemp (c : ascii) :
  Py.lower_char (Py.lower_char c) = Py.lower_char c.
Proof. destruct c as [[] [] [] [] [] [] [] []]; reflexivity. Qed.

Lemma lower_idemp (s : string) : Py.lower (Py.lower s) = Py.lower s.
Proof.
  induction s as [|c s IH]; simpl; [done|]. by rewrite lower_char_idemp, IH.
Qed.

Lemma index_names_spec (metas : list Meta) :
  ∀ d : list (string * string),
    NoDup d.*1 →
    NoDup (index_names d metas).*1
    ∧ (∀ key, key ∈ (index_names d metas).*1 ↔
              key ∈ d.*1
              ∨ ∃ m, m ∈ metas ∧ key = Py.lower (company_name m))
    ∧ (∀ key sha, (key, sha) ∈ index_names d metas →
                  (key, sha) ∈ d
                  ∨ ∃ m, m ∈ metas ∧ key = Py.lower (company_name m)
                         ∧ sha = sha1 m)
    ∧ (length (index_names d metas) <= length d + length metas)%nat.
Proof.
  induction metas as [|m metas IH]; intros d Hd.
  - simpl. split; [done|]. split; [|split; [by left|lia]].
    intros key. split; [by left|].
    intros [?|(m & Hm & _)]; [done|]. by apply elem_of_nil in Hm.
  - change (index_names d (m :: metas))
      with (index_names (dict_set (Py.lower (company_name m)) (sha1 m) d) metas).
    set (d' := dict_set (Py.lower (company_name m)) (sha1 m) d).
    assert (Hkeys : d'.*1 = if decide (Py.lower (company_name m) ∈ d.*1)
                            then d.*1 else d.*1 ++ [Py.lower (company_name m)])
      by apply dict_set_keys.
    assert (Hd' : NoDup d'.*1).
    { rewrite Hkeys. case_decide; [done|].
      apply NoDup_app. repeat split; [done| |apply NoDup_singleton].
      intros x Hx ->%list_elem_of_singleton. done. }
    assert (Hmem : ∀ key, key ∈ d'.*1 ↔
                          key ∈ d.*1 ∨ key = Py.lower (company_name m)).
    { intros key. rewrite Hkeys. case_decide.
      - split; [by left|]. by intros [?| ->].
      - rewrite elem_of_app, list_elem_of_singleton. done. }
    destruct (IH d' Hd') as (Hnodup & Hdom & Hval & Hlen).
    split; [done|]. split; [|split].
    + intros key. rewrite Hdom, Hmem. split.
      * intros [[?| ->]|(m' & Hm' & ->)]; [by left| |].
        -- right. exists m. split; [by left|done].
        -- right. exists m'. split; [by right|done].
      * intros [?|(m' & [->|Hm']%elem_of_cons & ->)].
        -- left. by left.
        -- left. by right.
        -- right. by exists m'.
    + intros key sha [Hin|(m' & Hm' & -> & ->)]%Hval.
      * apply dict_set_elem in Hin as [[-> ->]|Hin]; [|by left].
        right. exists m. split; [by left|done].
      * right. exists m'. split; [by right|done].
    + assert (length d' <= S (length d))%nat; [|simpl; lia].
      rewrite <- (length_fmap fst d'), Hkeys, <- (length_fmap fst d).
      case_decide; [lia|]. rewrite length_app. simpl. lia.
Qed.

(** X2. The name index that [__init__] builds has one entry for each
    distinct lower-cased company name and no other: its keys are pairwise
    different, each is the lower-cased name of a record and is unchanged by
    [lower], every record's lower-cased name is a key, and each value is the
    document id of a record with that name. *)
Theorem name_index_invariant dir (metas : list Meta) qs :
  NoDup (company_to_sha1 (init dir metas qs)).*1
  ∧ (∀ key, key ∈ (company_to_sha1 (init dir metas qs)).*1 ↔
            ∃ m, m ∈ metas ∧ key = Py.lower (company_name m))
  ∧ (∀ key sha, (key, sha) ∈ company_to_sha1 (init dir metas qs) →
                Py.lower key = key
                ∧ ∃ m, m ∈ metas ∧ key = Py.lower (company_name m)
                       ∧ sha = sha1 m)
  ∧ (length (company_to_sha1 (init dir metas qs)) <= length metas)%nat.
Proof.
  cbn [company_to_sha1 init].
  change (foldl _ [] metas) with (index_names [] metas).
  destruct (index_names_spec metas [] (NoDup_nil_2)) as (Hnodup & Hdom & Hval & Hlen).
  split; [done|]. split; [|split; [|simpl in Hlen; lia]].
  - intros key. rewrite Hdom. split; [|by right].
    intros [Hin|?]; [by apply elem_of_nil in Hin|done].
  - intros key sha [Hin|(m & Hm & -> & ->)]%Hval; [by apply elem_of_nil in Hin|].
    split; [apply lower_idemp|]. by exists m.
Qed.

Lemma meta_fold_lookup (metas : list Meta) (m0 : gmap string Meta) (s : string) :
  foldl (fun m meta => <[sha1 meta := meta]> m) m0 metas !! s
  = match last (filter (fun meta => sha1 meta = s) metas) with
    | Some meta => Some meta
    | None => m0 !! s
    end.
Proof.
  induction metas as [|meta metas IH] using rev_ind; [done|].
  rewrite foldl_snoc, filter_app.
  destruct (decide (sha1 meta = s)) as [<-|Hne].
  - rewrite lookup_insert_eq, filter_cons_True by done.
    by rewrite filter_nil, last_snoc.
  - rewrite lookup_insert_ne, filter_cons_False by done.
    by rewrite filter_nil, app_nil_r.
Qed.

(** X3. The metadata index that [__init__] builds maps a document id to
    the last record of the file that has it, and holds no other id. *)
Theorem meta_index_lookup dir (metas : list Meta) qs (s : string) :
  sha1_to_meta (init dir metas qs) !! s
  = last (filter (fun meta => sha1 meta = s) metas).
Proof.
  cbn [sha1_to_meta init]. rewrite meta_fold_lookup, lookup_empty.
  by destruct (last _).
Qed.

Lemma find_in_index (a : PDFQuestionAnswerer) (name sha : string) :
  find_pdf_for_company a name = Some sha →
  ∃ key, (key, sha) ∈ company_to_sha1 a.
Proof.
  unfold find_pdf_for_company.
  destruct (dict_get _ _) as [sha'|] eqn:Hget.
  - intros [= ->]. eexists. by apply dict_get_elem in Hget.
  - destruct (fuzzy_scan_spec (Py.lower name) (company_to_sha1 a))
      as [[-> _]|(i & key & sha' & Hi & _ & ->)]; [done|].
    destruct (Nat.ltb 0 _); [|done]. intros [= ->].
    exists key. by eapply list_elem_of_lookup_2.
Qed.

(** X4. Whatever name is asked for, exactly or fuzzily, a document id that
    [find_pdf_for_company] returns is the id of a loaded record, and the
    metadata index has a record for it with that id: the default [{}] of
    [sha1_to_meta.get(sha1, {})] in [process_question] is never used. *)
Theorem resolved_has_metadata dir (metas : list Meta) qs (name sha : string) :
  find_pdf_for_company (init dir metas qs) name = Some sha →
  ∃ m, m ∈ metas
       ∧ sha1 m = sha
       ∧ sha1_to_meta (init dir metas qs) !! sha = Some m.
Proof.
  intros (key & Hin)%find_in_index.
  cbn [company_to_sha1 init] in Hin.
  change (foldl _ [] metas) with (index_names [] metas) in Hin.
  destruct (index_names_spec metas [] (NoDup_nil_2)) as (_ & _ & Hval & _).
  destruct (Hval _ _ Hin) as [Hnil|(m0 & Hm0 & _ & ->)];
    [by apply elem_of_nil in Hnil|].
  cbn [sha1_to_meta init]. rewrite meta_fold_lookup, lookup_empty.
  destruct (last (filter (fun meta => sha1 meta = sha1 m0) metas)) as [m|] eqn:Hlast.
  - apply last_Some_elem_of, list_elem_of_filter in Hlast as [Hsha Hm].
    by exists m.
  - apply last_None in Hlast.
    assert (Hm : m0 ∈ filter (fun meta => sha1 meta = sha1 m0) metas)
      by (by apply list_elem_of_filter).
    rewrite Hlast in Hm. by apply elem_of_nil in Hm.
Qed.

Lemma resolved_has_metadata_witness :
  ∃ m, m ∈ [acme; acme_holdings]
       ∧ sha1 m = "def456"
       ∧ sha1_to_meta (init ∅ [acme; acme_holdings] []) !! "def456" = Some m.
Proof.
  apply (resolved_has_metadata ∅ [acme; acme_holdings] [] "Holdings Ltd" "def456").
  reflexivity.
Defined.

(** ** The fallback of the name extraction *)

Lemma try_patterns_none (oracle : Oracle) (ps : list Re.prog) q log :
  Forall (fun p => ¬ Re.matches p q) ps →
  try_patterns oracle ps q log = _extract_company_name_with_llm oracle q log.
Proof.
  induction 1 as [|p ps Hp _ IH]; [done|]. simpl.
  destruct (Re.search_group p q) as [g|] eqn:Hg; [|exact IH].
  destruct Hp. apply search_group_matches. by rewrite Hg.
Qed.

(** X5. When no pattern matches the question, [extract_company_name]
    sends exactly one request, the name extraction, and returns its reply
    stripped, or nothing when the request fails.  When the request fails or
    the stripped reply is empty, [process_question] returns the unresolved
    record after that one request. *)
Theorem name_fallback (oracle : Oracle) (a : PDFQuestionAnswerer)
    (qd : Question) (log : list Event) :
  Forall (fun p => ¬ Re.matches p (text qd)) patterns →
  extract_company_name oracle (text qd) log
  = (Py.strip <$> oracle (map ev_call log) (ExtractName (text qd)),
     log ++ [event_of oracle AtName (ExtractName (text qd)) log])
  ∧ (Py.strip <$> oracle (map ev_call log) (ExtractName (text qd)) = None
     ∨ Py.strip <$> oracle (map ev_call log) (ExtractName (text qd)) = Some "" →
     process_question oracle a qd log
     = ({| question_text := text qd; value := "N/A"; references := [] |},
        log ++ [event_of oracle AtName (ExtractName (text qd)) log])).
Proof.
  intros Hno.
  assert (Hname : extract_company_name oracle (text qd) log
    = (Py.strip <$> oracle (map ev_call log) (ExtractName (text qd)),
       log ++ [event_of oracle AtName (ExtractName (text qd)) log])).
  { unfold extract_company_name. rewrite try_patterns_none by done.
    unfold _extract_company_name_with_llm, mbind, M_bind, mret, M_ret, chat,
      event_of.
    by destruct (oracle _ _). }
  split; [exact Hname|].
  intros Hbad. unfold process_question, mbind, M_bind at 1. rewrite Hname.
  by destruct Hbad as [-> | ->].
Qed.

Lemma name_fallback_witness :
  extract_company_name names_acme (text plain_question) []
  = (Some "Acme Corp",
     [event_of names_acme AtName (ExtractName (text plain_question)) []]).
Proof.
  apply (name_fallback names_acme (init ∅ [acme] []) plain_question []).
  repeat constructor; intros Hm%search_group_matches;
    vm_compute in Hm; by destruct Hm.
Defined.

(** ** One record for each question *)

Lemma process_question_echo (oracle : Oracle) a qd log :
  question_text (process_question oracle a qd log).1 = text qd.
Proof.
  destruct (process_question_cases oracle a qd log)
    as (evs & _ & [-> | (name & sha & pages & _ & _ & _ & [-> | ->])]); [done..|].
  by destruct (select_answer_spec oracle (text qd) (kind qd) sha pages (log ++ evs))
    as (new & _ & Hq & _).
Qed.

Lemma process_all_from_echo (oracle : Oracle) a (qs : list Question) :
  ∀ log, map question_text (process_all_questions_from oracle a qs log).1
         = map text qs.
Proof.
  induction qs as [|qd qs IH]; intros log; [done|].
  cbn [process_all_questions_from]. unfold mbind, M_bind, mret, M_ret.
  pose proof (process_question_echo oracle a qd log) as Hq.
  destruct (process_question oracle a qd log) as [result log1]. simpl in Hq.
  specialize (IH log1).
  destruct (process_all_questions_from oracle a qs log1) as [results log2].
  simpl in *. by rewrite Hq, IH.
Qed.

(** X6. [process_all_questions] returns one record for each question, in
    the order of the questions file, and each record carries the text of
    its question, whether the question was resolved or not. *)
Theorem all_questions_in_order (oracle : Oracle) (a : PDFQuestionAnswerer)
    (log : list Event) :
  map question_text (process_all_questions oracle a log).1
  = map text (questions a)
  ∧ length (process_all_questions oracle a log).1 = length (questions a).
Proof.
  assert (H : map question_text (process_all_questions oracle a log).1
              = map text (questions a)) by apply process_all_from_echo.
  split; [exact H|].
  by rewrite <- (length_map question_text), H, length_map.
Qed.

(** ** What [main] writes *)





(** ** When the model is out of reach *)

Lemma try_batch_failed (oracle : Oracle) q k cands st log :
  oracle (map ev_call log) (Answer q (batch_context_of cands) k) = None →
  (try_batch oracle q k cands st log).1 = st.
Proof.
  intros Hfail.
  destruct (try_batch_spec oracle q k cands st log) as (evs & st' & -> & _ & H).
  rewrite Hfail in H. simpl in H. rewrite andb_false_r in H. by destruct H.
Qed.

Lemma select_answer_outage (oracle : Oracle) q k sha pages log :
  (∀ h question context kind, oracle h (Answer question context kind) = None) →
  (select_answer oracle q k sha pages log).1 = unresolved q.
Proof.
  intros Hout. unfold select_answer, mbind, M_bind, mret, M_ret.
  pose proof (for_each_inv (fun st _ => st = initial_best)
                (batch_starts (length (priority_pages_of q pages)))
                (priority_body oracle q k pages (priority_pages_of q pages))
                initial_best log eq_refl) as H1.
  destruct (for_each _ _ initial_best log) as [st1 log1]. simpl in H1.
  rewrite H1; last first.
  { intros i st log' _ ->. unfold priority_body. by apply try_batch_failed. }
  cbn [best_answer initial_best String.eqb Ascii.eqb Bool.eqb].
  pose proof (for_each_inv (fun st _ => st = initial_best)
                (batch_starts (length pages))
                (remaining_body oracle q k pages (priority_pages_of q pages))
                initial_best log1 eq_refl) as H2.
  destruct (for_each _ _ initial_best log1) as [st2 log2]. simpl in H2.
  rewrite H2; [done|].
  intros i st log' _ ->. unfold remaining_body.
  destruct (already_processed _ i); [done|]. by apply try_batch_failed.
Qed.

(** X9. If every answer request fails, [process_question] still returns a
    record: the unresolved one, with value "N/A" and no reference, or the
    record of the metadata short-circuit, which needs no request. *)
Theorem outage_is_absorbed (oracle : Oracle) (a : PDFQuestionAnswerer)
    (qd : Question) (log : list Event) :
  (∀ h question context kind, oracle h (Answer question context kind) = None) →
  (process_question oracle a qd log).1
  = {| question_text := text qd; value := "N/A"; references := [] |}
  ∨ ∃ sha, (process_question oracle a qd log).1
           = {| question_text := text qd;
                value := "False";
                references := [{| pdf_sha1 := sha; page_index := 0 |}] |}.
Proof.
  intros Hout.
  destruct (process_question_cases oracle a qd log)
    as (evs & _ & [-> | (name & sha & pages & _ & _ & _ & [-> | ->])]).
  - by left.
  - right. by exists sha.
  - left. by apply select_answer_outage.
Qed.

Lemma outage_is_absorbed_witness :
  (process_question silent (init {["abc123" := report]} [acme] [])
     report_question []).1
  = {| question_text := text report_question; value := "N/A"; references := [] |}
  ∨ ∃ sha, (process_question silent (init {["abc123" := report]} [acme] [])
              report_question []).1
           = {| question_text := text report_question;
                value := "False";
                references := [{| pdf_sha1 := sha; page_index := 0 |}] |}.
Proof.
  apply (outage_is_absorbed silent (init {["abc123" := report]} [acme] [])
           report_question []).
  reflexivity.
Defined.

(** ** Where the short-circuit cannot apply *)

(** X10. For a resolved question whose kind is not "boolean", or whose
    text does not contain "did" in any letter casing, the metadata flags
    are not consulted: the result is the one of the evidence loops,
    whatever the flags are. *)
Theorem short_circuit_needs_boolean_did (oracle : Oracle)
    (a : PDFQuestionAnswerer) (qd : Question) (log log1 : list Event)
    (name sha : string) (pages : list string) :
  extract_company_name oracle (text qd) log = (Some name, log1) →
  name ≠ "" →
  find_pdf_for_company a name = Some sha →
  sha ≠ "" →
  pdf_dir a !! sha = Some pages →
  pages ≠ [] →
  kind qd ≠ "boolean" ∨ Py.contains "did" (Py.lower (text qd)) = false →
  process_question oracle a qd log
  = select_answer oracle (text qd) (kind qd) sha pages log1.
Proof.
  intros Hname Hne Hfind Hsha Hfile Hpages Hnot.
  rewrite (process_question_resolved oracle a qd log name log1 sha pages) by done.
  assert (Hgate : (String.eqb (kind qd) "boolean"
                   && Py.contains "did" (Py.lower (text qd)))%bool = false).
  { destruct Hnot as [Hk| ->]; [|apply andb_false_r].
    by destruct (String.eqb_spec (kind qd) "boolean"). }
  unfold short_circuits, denied_by_metadata. rewrite Hgate.
  by rewrite !andb_false_r.
Qed.

Lemma short_circuit_needs_boolean_did_witness :
  process_question silent (init {["abc123" := report]} [acme] []) report_question []
  = select_answer silent (text report_question) (kind report_question)
      "abc123" report [].
Proof.
  apply (short_circuit_needs_boolean_did silent
           (init {["abc123" := report]} [acme] []) report_question [] []
           "Acme Corp" "abc123" report).
  - reflexivity.
  - discriminate.
  - reflexivity.
  - discriminate.
  - reflexivity.
  - discriminate.
  - left. discriminate.
Defined.

(** ** Page queries *)

Lemma page_events_app evs1 evs2 :
  page_events (evs1 ++ evs2) = page_events evs1 ++ page_events evs2.
Proof. apply List.filter_app. Qed.

Lemma page_events_pages evs :
  Forall (fun e => ev_site e = AtPage) evs → page_events evs = evs.
Proof.
  induction 1 as [|e evs He _ IH]; [done|].
  unfold page_events in *. simpl. by rewrite He, IH.
Qed.


Section PageQueries.

Variable oracle : Oracle.

Lemma locate_detail q k answer cands log :
  ∃ evs,
    (locate oracle q k answer cands log).2 = log ++ evs
    ∧ Forall (fun e => ev_site e = AtPage) evs
    ∧ (length evs <= length cands)%nat
    ∧ ∀ idx, (locate oracle q k answer cands log).1 = Some idx →
        ∃ page e, (idx, page) ∈ cands
                  ∧ e ∈ evs
                  ∧ ev_call e = Answer q page k
                  ∧ (decode (ev_reply e)).1 = answer.
Proof.
  revert log. induction cands as [|[idx page] rest IH]; intros log.
  - exists []. simpl. rewrite app_nil_r. repeat split; [done|lia|done].
  - rewrite locate_cons.
    destruct (String.eqb_spec
                (decode (oracle (map ev_call log) (Answer q page k))).1 answer)
      as [Heq|Hne].
    + exists [event_of oracle AtPage (Answer q page k) log]. simpl.
      split; [done|]. split; [by repeat constructor|]. split; [lia|].
      intros ? [= <-]. eexists page, _. split; [by left|].
      split; [by left|]. done.
    + destruct (IH (log ++ [event_of oracle AtPage (Answer q page k) log]))
        as (evs & Hlog & Hsites & Hlen & Hidx).
      exists (event_of oracle AtPage (Answer q page k) log :: evs).
      rewrite Hlog, <- app_assoc. split; [done|]. split; [by constructor|].
      split; [simpl; lia|].
      intros i Hi. destruct (Hidx i Hi) as (page' & e & Hc & He & Hcall & Hans).
      exists page', e. split; [by right|]. split; [by right|]. done.
Qed.

Lemma try_batch_detail q k cands st log :
  let r := oracle (map ev_call log) (Answer q (batch_context_of cands) k) in
  ∃ evs st',
    try_batch oracle q k cands st log
    = (st', log ++ event_of oracle AtBatch (Answer q (batch_context_of cands) k) log
              :: evs)
    ∧ Forall (fun e => ev_site e = AtPage) evs
    ∧ (length evs <= length cands)%nat
    ∧ if (PrimFloat.ltb (best_confidence st) (decode r).2
          && negb (String.eqb (decode r).1 "N/A"))%bool
      then best_answer st' = (decode r).1
           ∧ best_confidence st' = (decode r).2
           ∧ (best_page_idx st' = best_page_idx st
              ∨ ∃ idx page e,
                  (idx, page) ∈ cands
                  ∧ e ∈ evs
                  ∧ ev_call e = Answer q page k
                  ∧ (decode (ev_reply e)).1 = (decode r).1
                  ∧ best_page_idx st' = Z.of_nat idx)
      else st' = st ∧ evs = [].
Proof.
  intros r. unfold try_batch, mbind, M_bind at 1. rewrite answer_run.
  fold r. destruct (decode r) as [answer confidence] eqn:Hr. cbn [fst snd].
  destruct (PrimFloat.ltb _ _ && negb _)%bool eqn:Hacc.
  - unfold mbind, M_bind, mret, M_ret.
    destruct (locate_detail q k answer cands
                (log ++ [event_of oracle AtBatch (Answer q (batch_context_of cands) k) log]))
      as (evs & Hlog & Hsites & Hlen & Hidx).
    destruct (locate _ _ _ _ _ _) as [found log'] eqn:Hloc. simpl in *.
    subst log'. exists evs. eexists. rewrite <- app_assoc. simpl.
    split; [reflexivity|]. split; [exact Hsites|]. split; [exact Hlen|]. simpl.
    split; [done|]. split; [done|].
    destruct found as [idx|]; [right|by left].
    destruct (Hidx idx eq_refl) as (page & e & Hc & He & Hcall & Hans).
    by exists idx, page, e.
  - exists [], st. repeat split; [done|simpl; lia].
Qed.

Lemma try_batch_inv_pages log0 q k pages cands st log :
  Forall (fun c => pages !! c.1 = Some c.2) cands →
  (length cands <= batch_size)%nat →
  Inv_pages log0 q k pages st log →
  Inv_pages log0 q k pages (try_batch oracle q k cands st log).1
                           (try_batch oracle q k cands st log).2.
Proof.
  intros Hcands Hsize (new & -> & Hok & Hsites & Hna & Hback & Hbudget).
  destruct (try_batch_detail q k cands st (log0 ++ new))
    as (evs & st' & -> & Hpages & Hlen & H). cbn [fst snd].
  set (ev := event_of oracle AtBatch _ _) in *.
  exists (new ++ ev :: evs). split; [by rewrite app_assoc|].
  assert (Hpe : page_events (new ++ ev :: evs) = page_events new ++ evs).
  { rewrite page_events_app. f_equal.
    change (ev :: evs) with ([ev] ++ evs).
    by rewrite page_events_app, (page_events_pages evs Hpages). }
  assert (Hsites' : Forall (fun e => ev_site e = AtBatch ∨ ev_site e = AtPage)
                           (new ++ ev :: evs)).
  { apply Forall_app. split; [done|]. constructor; [by left|].
    eapply Forall_impl; [exact Hpages|]. by right. }
  assert (Hkeep : st' = st → evs = [] →
    Best_ok st'
    ∧ Forall (fun e => ev_site e = AtBatch ∨ ev_site e = AtPage) (new ++ ev :: evs)
    ∧ (best_answer st' = "N/A" →
       best_page_idx st' = -1 ∧ page_events (new ++ ev :: evs) = [])
    ∧ (0 <= best_page_idx st' →
       backed q k pages (best_answer st') (best_page_idx st') (new ++ ev :: evs))
    ∧ (length (page_events (new ++ ev :: evs)) <= batch_size)%nat).
  { intros -> ->. rewrite Hpe, app_nil_r. repeat split; try done.
    - by apply Hna.
    - by apply Hna.
    - intros Hidx. destruct (Hback Hidx) as (e & i & page & He & Hrest).
      exists e, i, page. split; [|done]. apply elem_of_app. by left. }
  subst ev. set (r := oracle _ _) in *.
  destruct Hok as [[Hans Hconf]|[Hans Hconf]]; rewrite Hconf in H.
  - destruct (Hna Hans) as [Hidx Hnone].
    destruct r as [content|]; simpl in H.
    + rewrite ?ltb_0_09 in H. simpl in H.
      destruct (String.eqb_spec (Py.strip content) "N/A") as [Heq|Hne];
        simpl in H; [destruct H; by apply Hkeep|].
      destruct H as (Ha & Hc & Hp).
      split; [right; split; [congruence|done]|]. split; [done|].
      split; [intros ?; congruence|]. split.
      * intros Hpos. destruct Hp as [Hp|(idx & page & e & Hc' & He & Hcall & Hdec & Hp)];
          [lia|].
        exists e, idx, page. rewrite Ha. repeat split; try done.
        -- apply elem_of_app. right. by right.
        -- rewrite Forall_forall in Hpages. by apply Hpages.
        -- rewrite Forall_forall in Hcands. by apply (Hcands _ Hc').
      * rewrite Hpe, Hnone. simpl. lia.
    + rewrite ?ltb_0_0 in H. simpl in H. destruct H. by apply Hkeep.
  - destruct r; simpl in H; rewrite ?ltb_09_09, ?ltb_09_0 in H; simpl in H;
      destruct H; by apply Hkeep.
Qed.

Lemma priority_body_inv_pages log0 q k pages i st log :
  Inv_pages log0 q k pages st log →
  Inv_pages log0 q k pages
    (priority_body oracle q k pages (priority_pages_of q pages) i st log).1
    (priority_body oracle q k pages (priority_pages_of q pages) i st log).2.
Proof.
  intros HI. unfold priority_body. apply try_batch_inv_pages; [| |exact HI].
  - apply Forall_forall. intros c (idx & -> & Hidx)%list_elem_of_fmap. simpl.
    unfold slice in Hidx. apply subseteq_take, subseteq_drop in Hidx.
    pose proof (priority_pages_in_range q pages) as Hrange.
    rewrite Forall_forall in Hrange. specialize (Hrange _ Hidx).
    unfold page_at. by destruct (lookup_lt_is_Some_2 pages idx Hrange) as [? ->].
  - rewrite length_map. unfold slice. rewrite length_take. lia.
Qed.

Lemma remaining_body_inv_pages log0 q k pages pp i st log :
  Inv_pages log0 q k pages st log →
  Inv_pages log0 q k pages (remaining_body oracle q k pages pp i st log).1
                           (remaining_body oracle q k pages pp i st log).2.
Proof.
  intros HI. unfold remaining_body.
  destruct (already_processed pp i); [exact HI|].
  apply try_batch_inv_pages; [| |exact HI].
  - apply Forall_forall. intros c Hin.
    apply elem_of_lookup_imap in Hin as (j & page & -> & Hj). simpl.
    unfold slice in Hj. apply lookup_take_Some in Hj as [Hj _].
    by rewrite lookup_drop in Hj.
  - rewrite length_imap. unfold slice. rewrite length_take. lia.
Qed.

(** The run of the evidence loops, as to the queries on single pages. *)
Lemma select_answer_pages q k sha pages log :
  ∃ new,
    (select_answer oracle q k sha pages log).2 = log ++ new
    ∧ Forall (fun e => ev_site e = AtBatch ∨ ev_site e = AtPage) new
    ∧ (value (select_answer oracle q k sha pages log).1 = "N/A" →
       references (select_answer oracle q k sha pages log).1 = []
       ∧ page_events new = [])
    ∧ (∀ ref, ref ∈ references (select_answer oracle q k sha pages log).1 →
         pdf_sha1 ref = sha
         ∧ backed q k pages (value (select_answer oracle q k sha pages log).1)
             (page_index ref) new)
    ∧ (length (page_events new) <= batch_size)%nat.
Proof.
  unfold select_answer, mbind, M_bind, mret, M_ret.
  assert (HI0 : Inv_pages log q k pages initial_best log).
  { exists []. rewrite app_nil_r. repeat split; try done; simpl; try lia.
    by left. }
  pose proof (for_each_inv (Inv_pages log q k pages)
                (batch_starts (length (priority_pages_of q pages)))
                (priority_body oracle q k pages (priority_pages_of q pages))
                initial_best log HI0) as H1.
  destruct (for_each _ _ initial_best log) as [st1 log1]. simpl in H1.
  assert (HI1 : Inv_pages log q k pages st1 log1).
  { apply H1. intros. by apply priority_body_inv_pages. }
  clear H1.
  assert (∃ st2 log2,
    (if String.eqb (best_answer st1) "N/A"
     then for_each (batch_starts (length pages))
            (remaining_body oracle q k pages (priority_pages_of q pages)) st1
     else (fun log => (st1, log))) log1 = (st2, log2)
    ∧ Inv_pages log q k pages st2 log2) as (st2 & log2 & Heq & HI2).
  { destruct (String.eqb (best_answer st1) "N/A").
    - pose proof (for_each_inv (Inv_pages log q k pages)
                    (batch_starts (length pages))
                    (remaining_body oracle q k pages (priority_pages_of q pages))
                    st1 log1 HI1) as H2.
      destruct (for_each _ _ st1 log1) as [st2 log2]. simpl in H2.
      exists st2, log2. split; [done|].
      apply H2. intros. by apply remaining_body_inv_pages.
    - by exists st1, log1. }
  rewrite Heq. simpl.
  destruct HI2 as (new & -> & _ & Hsites & Hna & Hback & Hbudget).
  exists new. split; [done|]. split; [done|]. split; [|split; [|done]].
  - intros Hval. destruct (Hna Hval) as [-> Hnone]. done.
  - intros ref Href.
    destruct (Z.leb_spec 0 (best_page_idx st2)) as [Hpos|];
      [|by apply elem_of_nil in Href].
    apply list_elem_of_singleton in Href as ->. simpl.
    split; [done|]. by apply Hback.
Qed.

End PageQueries.

Lemma page_events_names evs :
  Forall (fun e => ev_site e = AtName ∧ is_answer_call e = false) evs →
  page_events evs = [].
Proof.
  induction 1 as [|e evs [He _] _ IH]; [done|].
  unfold page_events in *. simpl. by rewrite He.
Qed.

Section StagesMore.

Variable oracle : Oracle.

Lemma try_patterns_events ps q log :
  ∃ evs, (try_patterns oracle ps q log).2 = log ++ evs
         ∧ (length evs <= 1)%nat
         ∧ Forall (fun e => ev_site e = AtName ∧ is_answer_call e = false) evs.
Proof.
  induction ps as [|p ps IH]; simpl.
  - eexists [_]. split; [reflexivity|]. split; [simpl; lia|].
    by repeat constructor.
  - destruct (Re.search_group p q); [|exact IH].
    exists []. rewrite app_nil_r. split; [done|]. split; [simpl; lia|done].
Qed.

(** Every run of [process_question]: at most one name request, then one
    of three ends. *)
Lemma process_question_stages a qd log :
  ∃ evs,
    (length evs <= 1)%nat
    ∧ Forall (fun e => ev_site e = AtName ∧ is_answer_call e = false) evs
    ∧ (process_question oracle a qd log = (unresolved (text qd), log ++ evs)
       ∨ ∃ sha pages,
           pdf_dir a !! sha = Some pages
           ∧ pages ≠ []
           ∧ (process_question oracle a qd log
              = (denied (text qd) sha, log ++ evs)
              ∨ process_question oracle a qd log
                = select_answer oracle (text qd) (kind qd) sha pages
                    (log ++ evs))).
Proof.
  destruct (try_patterns_events patterns (text qd) log) as (evs & Hlog & Hlen & Hevs).
  fold (extract_company_name oracle (text qd) log) in Hlog.
  exists evs. split; [exact Hlen|]. split; [exact Hevs|].
  destruct (extract_company_name oracle (text qd) log) as [name log1] eqn:Hname.
  simpl in Hlog. subst log1.
  destruct name as [name|]; last first.
  { left. unfold process_question, mbind, M_bind at 1. by rewrite Hname. }
  destruct (decide (name = "")) as [->|Hne].
  { left. unfold process_question, mbind, M_bind at 1. by rewrite Hname. }
  destruct (find_pdf_for_company a name) as [sha|] eqn:Hfind; last first.
  { left. unfold process_question, mbind, M_bind at 1. rewrite Hname.
    destruct name; [done|]. cbn [Py.truthy_str negb]. by rewrite Hfind. }
  destruct (decide (sha = "")) as [->|Hsha].
  { left. unfold process_question, mbind, M_bind at 1. rewrite Hname.
    destruct name; [done|]. cbn [Py.truthy_str negb]. by rewrite Hfind. }
  destruct (pdf_dir a !! sha) as [pages|] eqn:Hfile; last first.
  { left. unfold process_question, mbind, M_bind at 1. rewrite Hname.
    destruct name; [done|]. cbn [Py.truthy_str negb]. rewrite Hfind.
    destruct sha; [done|]. cbn [Py.truthy_str negb]. by rewrite Hfile. }
  destruct (decide (pages = [])) as [->|Hpages].
  { left. unfold process_question, mbind, M_bind at 1. rewrite Hname.
    destruct name; [done|]. cbn [Py.truthy_str negb]. rewrite Hfind.
    destruct sha; [done|]. cbn [Py.truthy_str negb]. by rewrite Hfile. }
  right. exists sha, pages. split; [done|]. split; [done|].
  rewrite (process_question_resolved oracle a qd log name (log ++ evs) sha pages)
    by done.
  destruct (short_circuits _ _ _); [by left|by right].
Qed.

End StagesMore.

(** X11. A record with value "N/A" never carries a reference, and in its
    run no page was asked on its own.  The converse fails: an answer can
    come without a reference. *)
Theorem unresolved_has_no_reference (oracle : Oracle) (a : PDFQuestionAnswerer)
    (qd : Question) (log : list Event) :
  value (process_question oracle a qd log).1 = "N/A" →
  references (process_question oracle a qd log).1 = []
  ∧ ∃ new, (process_question oracle a qd log).2 = log ++ new
           ∧ page_events new = [].
Proof.
  destruct (process_question_stages oracle a qd log)
    as (evs & _ & Hevs & [-> | (sha & pages & _ & _ & [-> | ->])]).
  - intros _. split; [done|]. exists evs. split; [done|].
    by apply page_events_names.
  - simpl. discriminate.
  - intros Hval.
    destruct (select_answer_pages oracle (text qd) (kind qd) sha pages (log ++ evs))
      as (new & Hlog & _ & Hna & _).
    destruct (Hna Hval) as [Hrefs Hnone]. split; [done|].
    exists (evs ++ new). rewrite Hlog, app_assoc. split; [done|].
    by rewrite page_events_app, (page_events_names evs Hevs), Hnone.
Qed.

Lemma unresolved_has_no_reference_witness :
  references (process_question knows_nothing (init {["abc123" := report]} [acme] [])
                report_question []).1 = []
  ∧ ∃ new, (process_question knows_nothing (init {["abc123" := report]} [acme] [])
              report_question []).2 = [] ++ new
           ∧ page_events new = [].
Proof.
  apply (unresolved_has_no_reference knows_nothing
           (init {["abc123" := report]} [acme] []) report_question []).
  reflexivity.
Defined.

(** X12. A reference is either the page 0 of the metadata short-circuit,
    given without any answer request, or a page of the resolved document
    that was asked on its own during the run and whose answer, stripped,
    is the value of the record. *)
Theorem reference_is_backed (oracle : Oracle) (a : PDFQuestionAnswerer)
    (qd : Question) (log : list Event) (ref : Reference) :
  ref ∈ references (process_question oracle a qd log).1 →
  ∃ new,
    (process_question oracle a qd log).2 = log ++ new
    ∧ ((value (process_question oracle a qd log).1 = "False"
        ∧ page_index ref = 0
        ∧ Forall (fun e => is_answer_call e = false) new)
       ∨ ∃ pages,
           pdf_dir a !! pdf_sha1 ref = Some pages
           ∧ backed (text qd) (kind qd) pages
               (value (process_question oracle a qd log).1) (page_index ref) new).
Proof.
  destruct (process_question_stages oracle a qd log)
    as (evs & _ & Hevs & [-> | (sha & pages & Hfile & _ & [-> | ->])]).
  - intros H. by apply elem_of_nil in H.
  - intros ->%list_elem_of_singleton. exists evs. split; [done|]. left.
    repeat split; [done..|]. eapply Forall_impl; [exact Hevs|]. by intros e [_ ?].
  - intros Href.
    destruct (select_answer_pages oracle (text qd) (kind qd) sha pages (log ++ evs))
      as (new & Hlog & _ & _ & Hback & _).
    destruct (Hback ref Href) as [-> (e & i & page & He & Hrest)].
    exists (evs ++ new). rewrite Hlog, app_assoc. split; [done|]. right.
    exists pages. split; [done|]. exists e, i, page.
    split; [|done]. apply elem_of_app. by right.
Qed.

Lemma reference_is_backed_witness :
  ∃ new,
    (process_question says_42 (init {["abc123" := report]} [acme] [])
       report_question []).2 = [] ++ new
    ∧ ((value (process_question says_42 (init {["abc123" := report]} [acme] [])
                 report_question []).1 = "False"
        ∧ page_index {| pdf_sha1 := "abc123"; page_index := 0 |} = 0
        ∧ Forall (fun e => is_answer_call e = false) new)
       ∨ ∃ pages,
           pdf_dir (init {["abc123" := report]} [acme] [])
             !! pdf_sha1 {| pdf_sha1 := "abc123"; page_index := 0 |} = Some pages
           ∧ backed (text report_question) (kind report_question) pages
               (value (process_question says_42
                         (init {["abc123" := report]} [acme] [])
                         report_question []).1)
               (page_index {| pdf_sha1 := "abc123"; page_index := 0 |}) new).
Proof.
  apply (reference_is_backed says_42 (init {["abc123" := report]} [acme] [])
           report_question [] {| pdf_sha1 := "abc123"; page_index := 0 |}).
  vm_compute. left.
Defined.

(** ** The number of requests *)






(** ** The names that the patterns extract *)

Lemma accepts_marks_free p s pos m0 m1 r :
  marks_free p → Re.accepts p s pos m0 m1 r → r = (m0, m1).
Proof.
  intros Hfree Hacc. induction Hacc; try done.
  - apply IHHacc. by inversion Hfree.
  - by inversion Hfree.
  - by inversion Hfree.
  - apply IHHacc. by inversion Hfree.
Qed.

Lemma accepts_group (pre post : Re.prog) cls lazy :
  marks_free post →
  ∀ s pos m0 m1 a b,
    Re.accepts (pre ++ Re.MarkOpen :: Re.Plus cls lazy :: Re.MarkClose :: post)
               s pos m0 m1 (a, b) →
    ∃ u name rest,
      s = u ++ name ++ rest
      ∧ a = (pos + length u)%nat
      ∧ b = (a + length name)%nat
      ∧ name ≠ []
      ∧ forallb cls name = true.
Proof.
  intros Hfree. induction pre as [|o pre IH]; intros s pos m0 m1 a b Hacc.
  - simpl in Hacc. inversion Hacc as [| |k s' p' a0 a1 r' Hacc1| |]; subst.
    apply accepts_plus in Hacc1 as (x & xs & s2 & -> & Hcls & Hacc2).
    inversion Hacc2 as [| | |k s' p' a0 a1 r' Hacc3|]; subst.
    apply (accepts_marks_free _ _ _ _ _ _ Hfree) in Hacc3 as [= -> ->].
    exists [], (x :: xs), s2. simpl. repeat split; [lia|done..].
  - simpl in Hacc. destruct o as [c|cls' lazy'| |].
    + inversion Hacc; subst.
      match goal with H : Re.accepts _ _ (S pos) _ _ _ |- _ =>
        apply IH in H as (u & name & rest & -> & -> & -> & Hne & Hcls) end.
      exists (c :: u), name, rest. simpl. repeat split; [lia|done..].
    + apply accepts_plus in Hacc as (x & xs & s2 & -> & _ & Hacc).
      apply IH in Hacc as (u & name & rest & -> & -> & -> & Hne & Hcls).
      exists ((x :: xs) ++ u), name, rest. rewrite <- app_assoc.
      repeat split; [rewrite length_app; lia|done..].
    + inversion Hacc; subst.
      match goal with H : Re.accepts _ _ pos _ _ _ |- _ =>
        apply IH in H as (u & name & rest & -> & -> & -> & Hne & Hcls) end.
      by exists u, name, rest.
    + inversion Hacc; subst.
      match goal with H : Re.accepts _ _ pos _ _ _ |- _ =>
        apply IH in H as (u & name & rest & -> & -> & -> & Hne & Hcls) end.
      by exists u, name, rest.
Qed.

Lemma patterns_shape : Forall name_pattern patterns.
Proof.
  unfold patterns. repeat apply Forall_cons_2; [..|apply Forall_nil_2].
  - exists (Re.lit "For" ++ Re.spaces), (Re.lit ",").
    split; [reflexivity|]. by repeat constructor.
  - exists (Re.lit "Did" ++ Re.spaces), (Re.spaces ++ Re.lit "announce").
    split; [reflexivity|]. by repeat constructor.
  - exists (Re.lit "by" ++ Re.spaces), (Re.spaces ++ Re.lit "according").
    split; [reflexivity|]. by repeat constructor.
  - exists (Re.lit "at" ++ Re.spaces), (Re.spaces ++ Re.lit "in").
    split; [reflexivity|]. by repeat constructor.
  - exists (Re.lit "What" ++ Re.spaces ++ Re.lit "is" ++ Re.spaces
            ++ Re.lit "the" ++ Re.spaces), (Re.lit "'s").
    split; [reflexivity|]. by repeat constructor.
Qed.

(** Group 1 of a match is a piece of the text made of name characters. *)
Lemma search_group_piece (p : Re.prog) (text g : string) :
  name_pattern p →
  Re.search_group p text = Some g →
  ∃ before rest,
    list_ascii_of_string text = before ++ list_ascii_of_string g ++ rest
    ∧ g ≠ ""
    ∧ forallb Re.name_char (list_ascii_of_string g) = true.
Proof.
  intros (pre & post & -> & Hfree). unfold Re.search_group.
  destruct (Re.search_from _ (list_ascii_of_string text) 0) as [[a b]|] eqn:Hs;
    [|done].
  intros [= <-].
  apply search_from_sound in Hs as (skipped & rest0 & Htext & Hacc).
  apply (accepts_group pre post _ _ Hfree) in Hacc
    as (u & name & rest & -> & -> & -> & Hne & Hcls).
  assert (Hg : String.substring (0 + length skipped + length u)
                 (0 + length skipped + length u + length name
                  - (0 + length skipped + length u)) text
               = string_of_list_ascii name).
  { rewrite <- (string_of_list_ascii_of_string text), Htext.
    replace (0 + length skipped + length u + length name
             - (0 + length skipped + length u))%nat
      with (length name) by lia.
    replace (0 + length skipped + length u)%nat with (length (skipped ++ u))
      by (rewrite length_app; lia).
    rewrite <- (substring_app (skipped ++ u) name rest).
    by rewrite <- !app_assoc. }
  rewrite Hg, list_ascii_of_string_of_list_ascii.
  exists (skipped ++ u), rest. rewrite Htext, <- app_assoc.
  split; [done|]. split; [|done].
  destruct name; [done|]. discriminate.
Qed.

Lemma lstrip_split (s : string) :
  ∃ l, list_ascii_of_string s = l ++ list_ascii_of_string (Py.lstrip s)
       ∧ forallb Py.isspace l = true.
Proof.
  induction s as [|c s (l & Hl & Hsp)]; [by exists []|].
  simpl. destruct (Py.isspace c) eqn:Hc.
  - exists (c :: l). simpl. by rewrite Hl, Hc, Hsp.
  - by exists [].
Qed.

Lemma rstrip_split (s : string) :
  ∃ r, list_ascii_of_string s = list_ascii_of_string (Py.rstrip s) ++ r
       ∧ forallb Py.isspace r = true.
Proof.
  induction s as [|c s (r & Hr & Hsp)]; [by exists []|].
  simpl. destruct (Py.rstrip s) as [|c' s'] eqn:Hs.
  - destruct (Py.isspace c) eqn:Hc.
    + exists (c :: r). simpl in *. by rewrite Hr, Hc, Hsp.
    + exists r. simpl in *. by rewrite Hr.
  - exists r. simpl in *. by rewrite Hr.
Qed.

Lemma strip_split (s : string) :
  ∃ l r, list_ascii_of_string s = l ++ list_ascii_of_string (Py.strip s) ++ r
         ∧ forallb Py.isspace l = true
         ∧ forallb Py.isspace r = true.
Proof.
  destruct (lstrip_split s) as (l & Hl & Hlsp).
  destruct (rstrip_split (Py.lstrip s)) as (r & Hr & Hrsp).
  exists l, r. unfold Py.strip. by rewrite Hl, Hr.
Qed.

(** X14. A company name that [extract_company_name] takes from a pattern
    is a piece of the question text, between two pieces of it, and holds
    neither a comma nor a period; the model is not asked for it. *)
Theorem extracted_name_is_piece (oracle : Oracle) (q : string) (log : list Event) :
  Exists (fun p => Re.matches p q) patterns →
  ∃ name before after,
    extract_company_name oracle q log = (Some name, log)
    ∧ list_ascii_of_string q = before ++ list_ascii_of_string name ++ after
    ∧ forallb Re.name_char (list_ascii_of_string name) = true.
Proof.
  intros (pre & p & post & g & Hsplit & _ & Hpre & _ & Hg)%first_matching_pattern.
  assert (Hshape : name_pattern p).
  { pose proof patterns_shape as H. rewrite Hsplit in H.
    apply Forall_app in H as [_ H]. by apply Forall_cons in H as [H _]. }
  destruct (search_group_piece p q g Hshape Hg) as (before & rest & Hq & _ & Hcls).
  destruct (strip_split g) as (l & r & Hgs & _ & _).
  exists (Py.strip g), (before ++ l), (r ++ rest). split; [|split].
  - unfold extract_company_name. rewrite Hsplit. by apply try_patterns_first.
  - rewrite Hq, Hgs, <- !app_assoc. done.
  - rewrite Hgs, !forallb_app in Hcls.
    apply andb_true_iff in Hcls as [_ Hcls].
    by apply andb_true_iff in Hcls as [Hcls _].
Qed.

Lemma extracted_name_is_piece_witness :
  ∃ name before after,
    extract_company_name silent liberty_question [] = (Some name, [])
    ∧ list_ascii_of_string liberty_question
      = before ++ list_ascii_of_string name ++ after
    ∧ forallb Re.name_char (list_ascii_of_string name) = true.
Proof.
  apply (extracted_name_is_piece silent liberty_question []).
  apply Exists_cons. right. apply Exists_cons. left.
  apply search_group_matches. vm_compute. by eexists.
Defined.

(** ** Queries without a word *)

Lemma isspace_lower_char (c : ascii) :
  Py.isspace (Py.lower_char c) = Py.isspace c.
Proof. destruct c as [[] [] [] [] [] [] [] []]; reflexivity. Qed.

Lemma split_blank (s : string) :
  forallb Py.isspace (list_ascii_of_string s) = true → Py.split s = [].
Proof.
  unfold Py.split. induction s as [|c s IH]; [done|].
  simpl. intros [Hc Hs]%andb_true_iff. rewrite Hc. simpl. by apply IH.
Qed.

Lemma lower_blank (s : string) :
  forallb Py.isspace (list_ascii_of_string s) = true →
  forallb Py.isspace (list_ascii_of_string (Py.lower s)) = true.
Proof.
  induction s as [|c s IH]; [done|].
  simpl. intros [Hc Hs]%andb_true_iff.
  by rewrite isspace_lower_char, Hc, IH.
Qed.

(** X15. A query that is empty or made of whitespace only has no word, so
    it resolves to nothing, unless it is itself an indexed name. *)
Theorem blank_query_unresolved (a : PDFQuestionAnswerer) (query : string) :
  forallb Py.isspace (list_ascii_of_string query) = true →
  dict_get (Py.lower query) (company_to_sha1 a) = None →
  find_pdf_for_company a query = None.
Proof.
  intros Hblank Hmiss. unfold find_pdf_for_company. rewrite Hmiss.
  destruct (fuzzy_scan_spec (Py.lower query) (company_to_sha1 a))
    as [[-> _]|(i & name & sha & _ & (n & s & _ & Hpos & _) & _)]; [done|].
  unfold overlap in Hpos.
  rewrite (split_blank _ (lower_blank _ Hblank)) in Hpos.
  rewrite list_to_set_nil, intersection_empty_l_L, size_empty in Hpos. lia.
Qed.

Lemma blank_query_unresolved_witness :
  find_pdf_for_company (init ∅ [acme; acme_holdings] []) "  " = None.
Proof.
  apply (blank_query_unresolved (init ∅ [acme; acme_holdings] []) "  ");
    reflexivity.
Defined.

(** ** Partial extraction *)

Lemma read_pages_lookup (texts : list (option string)) (i : nat) (page : string) :
  read_pages texts !! i = Some page → texts !! i = Some (Some page).
Proof.
  revert i. induction texts as [|[t|] texts IH]; intros i; simpl; [done| |done].
  destruct i as [|i]; simpl; [by intros [= ->]|apply IH].
Qed.

(** X16. [extract_text_from_pdf] returns the texts of the pages before
    the first page that fails, all pages when none fails, and nothing for
    a file that cannot be opened; so the position of a text in its result
    is the page number of that text in the file. *)
Theorem partial_extraction (texts : list (option string)) :
  (∃ rest, texts = (Some <$> extract_text_from_pdf (Pages texts)) ++ rest
           ∧ (rest = [] ∨ ∃ rest', rest = None :: rest'))
  ∧ (∀ i page, extract_text_from_pdf (Pages texts) !! i = Some page →
               texts !! i = Some (Some page))
  ∧ extract_text_from_pdf Unreadable = [].
Proof.
  split; [|split; [apply read_pages_lookup|done]].
  cbn [extract_text_from_pdf].
  induction texts as [|[t|] texts (rest & Hrest & Hend)].
  - exists []. split; [done|by left].
  - exists rest. split; [|done].
    cbn [read_pages fmap list_fmap app]. by f_equal.
  - exists (None :: texts). split; [done|]. right. by eexists.
Qed.

(** X17. With the page sequences of the directory obtained by
    [extract_text_from_pdf], a reference that [process_question] gives
    names a file that could be opened and a page of it whose text was
    extracted. *)
Theorem reference_names_extracted_page (oracle : Oracle)
    (files : gmap string PdfFile) (metas : list Meta) (qs : list Question)
    (qd : Question) (log : list Event) (ref : Reference) :
  ref ∈ references (process_question oracle (init (extracted files) metas qs)
                      qd log).1 →
  ∃ texts page,
    files !! pdf_sha1 ref = Some (Pages texts)
    ∧ 0 <= page_index ref
    ∧ texts !! Z.to_nat (page_index ref) = Some (Some page).
Proof.
  destruct (process_question_stages oracle (init (extracted files) metas qs) qd log)
    as (evs & _ & _ & [-> | (sha & pages & Hfile & Hpages & Hend)]).
  { intros H. by apply elem_of_nil in H. }
  cbn [pdf_dir init] in Hfile. unfold extracted in Hfile.
  rewrite lookup_fmap in Hfile.
  destruct (files !! sha) as [[|texts]|] eqn:Hsha; simpl in Hfile;
    [injection Hfile as <-; done| |done].
  injection Hfile as <-.
  assert (Hidx : ∀ idx, 0 <= idx < Z.of_nat (length (read_pages texts)) →
            ∃ page, texts !! Z.to_nat idx = Some (Some page)).
  { intros idx Hidx.
    destruct (lookup_lt_is_Some_2 (read_pages texts) (Z.to_nat idx) ltac:(lia))
      as [page Hpage].
    exists page. by apply read_pages_lookup. }
  destruct Hend as [-> | ->].
  - intros ->%list_elem_of_singleton. simpl.
    destruct (Hidx 0) as [page Hpage].
    { destruct (read_pages texts); [done|]. simpl. lia. }
    by exists texts, page.
  - destruct (select_answer_spec oracle (text qd) (kind qd) sha (read_pages texts)
                (log ++ evs)) as (new & _ & _ & _ & [-> | (idx & Hrange & ->)]).
    + intros H. by apply elem_of_nil in H.
    + intros ->%list_elem_of_singleton. simpl.
      destruct (Hidx idx Hrange) as [page Hpage].
      exists texts, page. repeat split; [done|lia|done].
Qed.

Lemma reference_names_extracted_page_witness :
  ∃ texts page,
    ({["abc123" := damaged_report]} : gmap string PdfFile)
      !! pdf_sha1 {| pdf_sha1 := "abc123"; page_index := 0 |} = Some (Pages texts)
    ∧ 0 <= page_index {| pdf_sha1 := "abc123"; page_index := 0 |}
    ∧ texts !! Z.to_nat (page_index {| pdf_sha1 := "abc123"; page_index := 0 |})
      = Some (Some page).
Proof.
  apply (reference_names_extracted_page says_42 {["abc123" := damaged_report]}
           [acme] [] report_question []
           {| pdf_sha1 := "abc123"; page_index := 0 |}).
  vm_compute. left.
Defined.

(** * find_company.py *)

(** ** Dictionary comprehensions *)

Section DictOf.
Context {A V : Type} (key : A → string) (val : A → V).

Lemma dict_of_other (k : string) (xs : list A) (d : list (string * V)) :
  (∀ x, x ∈ xs → key x ≠ k) →
  dict_get k (dict_of key val d xs) = dict_get k d.
Proof.
  revert d. induction xs as [|x xs IH]; intros d Hk; [done|].
  cbn [dict_of foldl]. fold (dict_of key val (dict_set (key x) (val x) d) xs).
  rewrite IH.
  - apply dict_get_set_ne. intros ->. eapply Hk; [left|done].
  - intros y Hy. apply Hk. by right.
Qed.

Lemma dict_of_last (pre post : list A) (x : A) (d : list (string * V)) :
  (∀ y, y ∈ post → key y ≠ key x) →
  dict_get (key x) (dict_of key val d (pre ++ x :: post)) = Some (val x).
Proof.
  intros Hpost. unfold dict_of. rewrite foldl_app. cbn [foldl].
  fold (dict_of key val d pre).
  fold (dict_of key val (dict_set (key x) (val x) (dict_of key val d pre)) post).
  rewrite dict_of_other by exact Hpost. apply dict_get_set_eq.
Qed.

Lemma dict_of_spec (xs : list A) :
  ∀ d : list (string * V),
    NoDup d.*1 →
    NoDup (dict_of key val d xs).*1
    ∧ (∀ k v, (k, v) ∈ dict_of key val d xs →
              (k, v) ∈ d ∨ ∃ x, x ∈ xs ∧ k = key x ∧ v = val x)
    ∧ (∀ x, x ∈ xs → key x ∈ (dict_of key val d xs).*1)
    ∧ (∀ k, k ∈ d.*1 → k ∈ (dict_of key val d xs).*1).
Proof.
  induction xs as [|x xs IH]; intros d Hd.
  - simpl. split; [done|]. split; [by left|]. split; [|done].
    intros x Hx. by apply elem_of_nil in Hx.
  - cbn [dict_of foldl]. fold (dict_of key val (dict_set (key x) (val x) d) xs).
    set (d' := dict_set (key x) (val x) d).
    assert (Hkeys : d'.*1 = if decide (key x ∈ d.*1) then d.*1
                            else d.*1 ++ [key x]) by apply dict_set_keys.
    assert (Hd' : NoDup d'.*1).
    { rewrite Hkeys. case_decide; [done|].
      apply NoDup_app. repeat split; [done| |apply NoDup_singleton].
      intros k Hk ->%list_elem_of_singleton. done. }
    assert (Hmem : ∀ k, k ∈ d'.*1 ↔ k ∈ d.*1 ∨ k = key x).
    { intros k. rewrite Hkeys. case_decide.
      - split; [by left|]. by intros [?| ->].
      - rewrite elem_of_app, list_elem_of_singleton. done. }
    destruct (IH d' Hd') as (Hnodup & Hval & Hin & Hold).
    split; [done|]. split; [|split].
    + intros k v [Hkv|(y & Hy & -> & ->)]%Hval.
      * apply dict_set_elem in Hkv as [[-> ->]|Hkv]; [|by left].
        right. exists x. split; [by left|done].
      * right. exists y. split; [by right|done].
    + intros y [->|Hy]%elem_of_cons; [|by apply Hin].
      apply Hold, Hmem. by right.
    + intros k Hk. apply Hold, Hmem. by left.
Qed.

Lemma dict_get_NoDup (d : list (string * V)) (k : string) (v : V) :
  NoDup d.*1 → (k, v) ∈ d → dict_get k d = Some v.
Proof.
  induction d as [|[k0 v0] d IH]; simpl; intros Hnd Hin.
  - by apply elem_of_nil in Hin.
  - apply NoDup_cons in Hnd as [Hk0 Hnd].
    destruct (String.eqb_spec k0 k) as [->|Hne].
    + apply elem_of_cons in Hin as [[= ->]|Hin]; [done|].
      destruct Hk0. by apply (list_elem_of_fmap_2 fst) in Hin.
    + apply elem_of_cons in Hin as [[= <- <-]|Hin]; [done|]. by apply IH.
Qed.

End DictOf.

Lemma dict_set_map {V W} (f : V → W) k v (d : list (string * V)) :
  prod_map id f <$> dict_set k v d = dict_set k (f v) (prod_map id f <$> d).
Proof.
  induction d as [|[k0 v0] d IH]; [done|].
  cbn [dict_set fmap list_fmap prod_map fst snd id] in *.
  destruct (String.eqb k0 k); [done|].
  cbn [fmap list_fmap prod_map fst snd id] in *. by rewrite IH.
Qed.

Lemma dict_of_map {A V W} (key : A → string) (val : A → V) (f : V → W)
    (xs : list A) :
  ∀ d, prod_map id f <$> dict_of key val d xs
       = dict_of key (f ∘ val) (prod_map id f <$> d) xs.
Proof.
  induction xs as [|x xs IH]; intros d; [done|].
  cbn [dict_of foldl].
  fold (dict_of key val (dict_set (key x) (val x) d) xs).
  fold (dict_of key (f ∘ val)
          (dict_set (key x) ((f ∘ val) x) (prod_map id f <$> d)) xs).
  by rewrite IH, dict_set_map.
Qed.

(** ** The ranking *)

#[global] Instance precedes_total : Total FindCompany.precedes.
Proof.
  intros a b. unfold FindCompany.precedes.
  destruct (Nat.lt_total (FindCompany.score a) (FindCompany.score b))
    as [?|[Heq|?]]; [right; by left| |left; by left].
  destruct (total String.le (FindCompany.comp_name a) (FindCompany.comp_name b)).
  - right. right. by split.
  - left. right. by split.
Qed.

#[global] Instance precedes_trans : Transitive FindCompany.precedes.
Proof.
  intros a b c. unfold FindCompany.precedes.
  intros [?|[Hab Hn]] [?|[Hbc Hn']]; [left; lia|left; lia|left; lia|].
  right. split; [lia|]. by etrans.
Qed.

Lemma collect_spec q (d : list (string * Meta)) (m : FindCompany.Match) :
  m ∈ FindCompany.collect q d ↔
  (FindCompany.comp_name m, FindCompany.meta_of m) ∈ d
  ∧ FindCompany.score m = overlap q (FindCompany.comp_name m)
  ∧ (0 < FindCompany.score m)%nat.
Proof.
  destruct m as [[s n] meta]. unfold FindCompany.comp_name, FindCompany.meta_of,
    FindCompany.score. simpl.
  induction d as [|[k v] d IH]; simpl.
  - split; [by intros ?%elem_of_nil|by intros [?%elem_of_nil _]].
  - destruct (Nat.ltb_spec 0 (overlap q k)) as [Hpos|Hzero].
    + rewrite !elem_of_cons, IH. split.
      * intros [[= -> -> ->]|(Hin & Hs & Hp)]; [by repeat split; [left|..]|].
        split; [by right|done].
      * intros ([[= -> ->]|Hin] & Hs & Hp); [left; by rewrite Hs|by right].
    + rewrite IH, elem_of_cons. split.
      * intros (Hin & Hs & Hp). split; [by right|done].
      * intros ([[= -> ->]|Hin] & Hs & Hp); [lia|done].
Qed.

(** X18. The candidates that find_company.py ranks for a query are
    exactly the indexed names that share a word with it, each with its
    overlap as score, once each; they are listed by decreasing score, and
    among equal scores by decreasing name. *)
Theorem ranking_spec (q : string) (d : list (string * Meta)) :
  StronglySorted FindCompany.precedes (FindCompany.best_matches q d)
  ∧ FindCompany.best_matches q d ≡ₚ FindCompany.collect q d
  ∧ (∀ m, m ∈ FindCompany.best_matches q d ↔
          (FindCompany.comp_name m, FindCompany.meta_of m) ∈ d
          ∧ FindCompany.score m = overlap q (FindCompany.comp_name m)
          ∧ (0 < FindCompany.score m)%nat)
  ∧ length (FindCompany.best_matches q d) = length (FindCompany.collect q d).
Proof.
  unfold FindCompany.best_matches.
  pose proof (merge_sort_Permutation FindCompany.precedes (FindCompany.collect q d))
    as Hperm.
  split; [apply StronglySorted_merge_sort; apply _|].
  split; [exact Hperm|]. split; [|by rewrite Hperm].
  intros m. rewrite Hperm. apply collect_spec.
Qed.

Example ranking_of_acme :
  FindCompany.comp_name
    <$> FindCompany.best_matches "acme inc"
          (FindCompany.company_to_meta [acme_listed; acme_holdings_listed])
  = ["acme holdings"; "acme corp"].
Proof. reflexivity. Qed.

(** ** The selection loop *)

Section SelectionLoop.

Variable to_int : string → option Z.

Lemma ask_rejected (best : list FindCompany.Match) (line : string)
    (rest : list string) :
  rejected to_int best line →
  FindCompany.printed (FindCompany.ask to_int best (line :: rest))
  = complaint to_int line ++ FindCompany.printed (FindCompany.ask to_int best rest)
  ∧ FindCompany.status (FindCompany.ask to_int best (line :: rest))
    = FindCompany.status (FindCompany.ask to_int best rest)
  ∧ FindCompany.unread (FindCompany.ask to_int best (line :: rest))
    = FindCompany.unread (FindCompany.ask to_int best rest).
Proof.
  intros [Hq Hn]. cbn [FindCompany.ask]. unfold complaint.
  destruct (String.eqb_spec (Py.lower line) "q") as [|_]; [done|].
  destruct (to_int line) as [n|]; [|done].
  specialize (Hn n eq_refl).
  destruct (Z.leb_spec 0 (n - 1)); destruct (Z.ltb_spec (n - 1)
    (Z.of_nat (length (take 5 best)))); cbn [andb]; try done. lia.
Qed.

Lemma ask_junk (best : list FindCompany.Match) (junk rest : list string) :
  Forall (rejected to_int best) junk →
  FindCompany.printed (FindCompany.ask to_int best (junk ++ rest))
  = concat (complaint to_int <$> junk)
      ++ FindCompany.printed (FindCompany.ask to_int best rest)
  ∧ FindCompany.status (FindCompany.ask to_int best (junk ++ rest))
    = FindCompany.status (FindCompany.ask to_int best rest)
  ∧ FindCompany.unread (FindCompany.ask to_int best (junk ++ rest))
    = FindCompany.unread (FindCompany.ask to_int best rest).
Proof.
  induction 1 as [|line junk Hline _ (IHp & IHs & IHu)]; [done|].
  destruct (ask_rejected best line (junk ++ rest) Hline) as (Hp & Hs & Hu).
  cbn [app fmap list_fmap concat]. rewrite Hp, Hs, Hu, IHp, IHs, IHu.
  by rewrite <- app_assoc.
Qed.

(** X19. In the selection loop of find_company.py every rejected line
    (not "q", not a number of a listed candidate) costs one prompt and one
    complaint and changes nothing else.  After any number of them: the
    number of a listed candidate prints the record of the candidate of
    that rank and ends the script with status 0; "q" in any letter casing
    ends it with status 0 and prints no record; and the end of the input
    ends it with status 1. *)
Theorem selection_loop (best : list FindCompany.Match) (junk : list string) :
  Forall (rejected to_int best) junk →
  (∀ line rest n,
     Py.lower line ≠ "q" →
     to_int line = Some n →
     1 <= n <= Z.of_nat (length (take 5 best)) →
     ∃ m, best !! Z.to_nat (n - 1) = Some m
          ∧ FindCompany.ask to_int best (junk ++ line :: rest)
            = {| FindCompany.printed :=
                   concat (complaint to_int <$> junk)
                   ++ [FindCompany.Prompt; FindCompany.FullMetadataHeader;
                       FindCompany.Dump (FindCompany.meta_of m)];
                 FindCompany.status := 0;
                 FindCompany.unread := rest |})
  ∧ (∀ line rest,
       Py.lower line = "q" →
       FindCompany.ask to_int best (junk ++ line :: rest)
       = {| FindCompany.printed :=
              concat (complaint to_int <$> junk) ++ [FindCompany.Prompt];
            FindCompany.status := 0;
            FindCompany.unread := rest |})
  ∧ FindCompany.ask to_int best junk
    = {| FindCompany.printed :=
           concat (complaint to_int <$> junk) ++ [FindCompany.Prompt];
         FindCompany.status := 1;
         FindCompany.unread := [] |}.
Proof.
  intros Hjunk.
  assert (Hrun : ∀ rest r,
            FindCompany.ask to_int best rest = r →
            FindCompany.ask to_int best (junk ++ rest)
            = {| FindCompany.printed :=
                   concat (complaint to_int <$> junk) ++ FindCompany.printed r;
                 FindCompany.status := FindCompany.status r;
                 FindCompany.unread := FindCompany.unread r |}).
  { intros rest r <-. destruct (ask_junk best junk rest Hjunk) as (Hp & Hs & Hu).
    destruct (FindCompany.ask to_int best (junk ++ rest)). simpl in *.
    by rewrite Hp, Hs, Hu. }
  split; [|split].
  - intros line rest n Hq Hn Hrange.
    destruct (lookup_lt_is_Some_2 best (Z.to_nat (n - 1))) as [m Hm].
    { rewrite length_take in Hrange. lia. }
    exists m. split; [done|]. rewrite (Hrun (line :: rest) _ eq_refl).
    cbn [FindCompany.ask].
    destruct (String.eqb_spec (Py.lower line) "q") as [|_]; [done|]. rewrite Hn.
    destruct (Z.leb_spec 0 (n - 1)); [|lia].
    destruct (Z.ltb_spec (n - 1) (Z.of_nat (length (take 5 best)))); [|lia].
    cbn [andb]. by rewrite Hm.
  - intros line rest Hq. rewrite (Hrun (line :: rest) _ eq_refl).
    cbn [FindCompany.ask].
    by destruct (String.eqb_spec (Py.lower line) "q").
  - rewrite <- (app_nil_r junk) at 1. by rewrite (Hrun [] _ eq_refl).
Qed.

End SelectionLoop.

Lemma selection_loop_witness :
  ∃ m,
    FindCompany.best_matches "acme inc"
      (FindCompany.company_to_meta [acme_listed; acme_holdings_listed])
      !! Z.to_nat (2 - 1) = Some m
    ∧ FindCompany.ask digit_to_int
        (FindCompany.best_matches "acme inc"
           (FindCompany.company_to_meta [acme_listed; acme_holdings_listed]))
        (["x"; "7"] ++ "2" :: ["later"])
      = {| FindCompany.printed :=
             concat (complaint digit_to_int <$> ["x"; "7"])
             ++ [FindCompany.Prompt; FindCompany.FullMetadataHeader;
                 FindCompany.Dump (FindCompany.meta_of m)];
           FindCompany.status := 0;
           FindCompany.unread := ["later"] |}.
Proof.
  refine (proj1 (selection_loop digit_to_int
                   (FindCompany.best_matches "acme inc"
                      (FindCompany.company_to_meta [acme_listed; acme_holdings_listed]))
                   ["x"; "7"] _) "2" ["later"] 2 _ _ _).
  - repeat constructor; try discriminate; intros n [= <-]; vm_compute;
      intros [H1 H2]; by (apply H1 || apply H2).
  - discriminate.
  - reflexivity.
  - vm_compute. split; discriminate.
Defined.

(** ** The script as a whole *)

Lemma company_to_meta_dict_of (metas : list Meta) :
  FindCompany.company_to_meta metas
  = dict_of (fun m => Py.lower (company_name m)) (fun m => m) [] metas.
Proof. reflexivity. Qed.

(** X20. When the name asked for equals, up to letter casing, the company
    name of a loaded record, find_company.py prints the last loaded record
    with that lower-cased name and exits with status 0, whether or not
    fuzzy matching was asked for, and reads no input. *)
Theorem find_company_exact (to_int : string → option Z)
    (args : FindCompany.Args) (pre post : list Meta) (m : Meta)
    (inputs : list string) :
  Py.lower (FindCompany.arg_company_name args) = Py.lower (company_name m) →
  (∀ m', m' ∈ post → Py.lower (company_name m') ≠ Py.lower (company_name m)) →
  FindCompany.main to_int args (Some (pre ++ m :: post)) inputs
  = {| FindCompany.printed :=
         [FindCompany.FoundExact (FindCompany.arg_company_name args);
          FindCompany.Dump m];
       FindCompany.status := 0;
       FindCompany.unread := inputs |}.
Proof.
  intros Hq Hpost. unfold FindCompany.main.
  rewrite Hq, company_to_meta_dict_of.
  by rewrite (dict_of_last (fun m => Py.lower (company_name m)) (fun m => m)
                pre post m [] Hpost).
Qed.

Lemma find_company_exact_witness :
  FindCompany.main digit_to_int ask_acme_corp
    (Some ([] ++ acme_listed :: [acme_holdings_listed])) ["1"]
  = {| FindCompany.printed :=
         [FindCompany.FoundExact (FindCompany.arg_company_name ask_acme_corp);
          FindCompany.Dump acme_listed];
       FindCompany.status := 0;
       FindCompany.unread := ["1"] |}.
Proof.
  apply (find_company_exact digit_to_int ask_acme_corp [] [acme_holdings_listed]
           acme_listed ["1"]).
  - reflexivity.
  - intros m' ->%list_elem_of_singleton. discriminate.
Defined.

Lemma show_ok (i : nat) (shown : list FindCompany.Match) :
  (FindCompany.show i shown).2 = true ↔ Forall has_industry shown.
Proof.
  revert i. induction shown as [|m shown IH]; intros i; simpl; [done|].
  rewrite Forall_cons. unfold has_industry at 1.
  destruct (fields (FindCompany.meta_of m) !! "major_industry") as [v|].
  - specialize (IH (S i)). destruct (FindCompany.show (S i) shown) as [out ok].
    simpl in *. rewrite IH. split; [by split|by intros [_ ?]].
  - simpl. split; [done|]. by intros [[? ?] _].
Qed.

Lemma ask_status (to_int : string → option Z) (best : list FindCompany.Match)
    (inputs : list string) :
  (FindCompany.status (FindCompany.ask to_int best inputs) = 1
   ∧ Forall (rejected to_int best) inputs)
  ∨ (FindCompany.status (FindCompany.ask to_int best inputs) = 0
     ∧ ¬ Forall (rejected to_int best) inputs).
Proof.
  induction inputs as [|line rest IH]; [by left|].
  cbn [FindCompany.ask].
  destruct (String.eqb_spec (Py.lower line) "q") as [Hq|Hq].
  { right. split; [done|]. intros [[? _] _]%Forall_cons. done. }
  destruct (to_int line) as [n|] eqn:Hn.
  - destruct (Z.leb_spec 0 (n - 1));
      destruct (Z.ltb_spec (n - 1) (Z.of_nat (length (take 5 best))));
      cbn [andb FindCompany.status].
    2-4: (destruct IH as [[Hs Hall]|[Hs Hall]]; [left|right];
          (split; [done|]); [apply Forall_cons; split; [|done]
                            |intros [_ ?]%Forall_cons; done];
          split; [done|]; intros n' Hn'; rewrite Hn in Hn';
          injection Hn' as <-; lia).
    destruct (lookup_lt_is_Some_2 best (Z.to_nat (n - 1))) as [m ->].
    { rewrite length_take in *. lia. }
    right. split; [done|]. intros [[_ Hrej] _]%Forall_cons.
    apply (Hrej n Hn). lia.
  - cbn [FindCompany.status].
    destruct IH as [[Hs Hall]|[Hs Hall]]; [left|right]; (split; [done|]).
    + apply Forall_cons. split; [|done]. split; [done|].
      intros n' Hn'. by rewrite Hn in Hn'.
    + by intros [_ ?]%Forall_cons.
Qed.

(** X21. find_company.py ends with exit status 0 or 1.  It is 1 in three
    cases only: the metadata file cannot be loaded; or, with no exact
    match and fuzzy matching on and candidates found, one of the
    candidates shown has no [major_industry] key; or every line of the
    input is rejected, so that the input ends before a choice. *)
Theorem find_company_status (to_int : string → option Z)
    (args : FindCompany.Args) (pdf_meta : option (list Meta))
    (inputs : list string) :
  (FindCompany.status (FindCompany.main to_int args pdf_meta inputs) = 0
   ∨ FindCompany.status (FindCompany.main to_int args pdf_meta inputs) = 1)
  ∧ (FindCompany.status (FindCompany.main to_int args pdf_meta inputs) = 1 ↔
     pdf_meta = None
     ∨ ∃ metas best,
         pdf_meta = Some metas
         ∧ dict_get (Py.lower (FindCompany.arg_company_name args))
             (FindCompany.company_to_meta metas) = None
         ∧ FindCompany.arg_fuzzy args = true
         ∧ best = FindCompany.best_matches
                    (Py.lower (FindCompany.arg_company_name args))
                    (FindCompany.company_to_meta metas)
         ∧ best ≠ []
         ∧ (¬ Forall has_industry (take 5 best)
            ∨ Forall (rejected to_int best) inputs)).
Proof.
  destruct pdf_meta as [metas|]; last first.
  { simpl. split; [by right|]. split; [by left|done]. }
  unfold FindCompany.main.
  destruct (dict_get _ _) as [meta|] eqn:Hget.
  { simpl. split; [by left|]. split; [done|].
    intros [?|(? & ? & [= <-] & ? & _)]; [done|congruence]. }
  destruct (FindCompany.arg_fuzzy args) eqn:Hfuzzy; last first.
  { simpl. split; [by left|]. split; [done|].
    intros [?|(? & ? & _ & _ & ? & _)]; done. }
  destruct (FindCompany.best_matches _ _) as [|m0 best0] eqn:Hbest.
  { simpl. split; [by left|]. split; [done|].
    intros [?|(? & ? & [= <-] & _ & _ & -> & Hne & _)]; [done|].
    by rewrite Hbest in Hne. }
  pose proof (show_ok 0 (take 5 (m0 :: best0))) as Hshow.
  destruct (FindCompany.show 0 (take 5 (m0 :: best0))) as [out ok].
  simpl in Hshow. destruct ok.
  - destruct (ask_status to_int (m0 :: best0) inputs) as [[Hs Hall]|[Hs Hall]];
      cbn [FindCompany.status]; rewrite Hs.
    + split; [by right|]. split; [|done]. intros _. right.
      exists metas, (m0 :: best0). rewrite Hbest. repeat split; try done.
      by right.
    + split; [by left|]. split; [done|].
      intros [?|(? & ? & [= <-] & _ & _ & -> & _ & [Hno|Hrej])]; [done| |].
      * exfalso. rewrite Hbest in Hno. apply Hno. by apply Hshow.
      * exfalso. rewrite Hbest in Hrej. done.
  - cbn [FindCompany.status]. split; [by right|]. split; [|done]. intros _.
    right. exists metas, (m0 :: best0). rewrite Hbest. repeat split; try done.
    left. intros Hall. apply Hshow in Hall. done.
Qed.

Example find_company_run :
  FindCompany.main digit_to_int ask_acme_inc
    (Some [acme_listed; acme_holdings_listed]) ["0"; "Q"; "1"]
  = {| FindCompany.printed :=
         [FindCompany.TryingFuzzy "ACME Inc"; FindCompany.FoundMatches 2;
          FindCompany.CandidateName 1 "Acme Holdings" 1;
          FindCompany.CandidateSha "def456";
          FindCompany.CandidateIndustry (JStr "Finance");
          FindCompany.CandidateName 2 "Acme Corp" 1;
          FindCompany.CandidateSha "abc123";
          FindCompany.CandidateIndustry (JStr "Technology");
          FindCompany.Prompt; FindCompany.InvalidChoice; FindCompany.Prompt];
       FindCompany.status := 0;
       FindCompany.unread := ["1"] |}.
Proof. reflexivity. Qed.

(** ** find_company.py and the resolver of rag_challenge.py *)

Lemma company_to_sha1_of_meta dir (metas : list Meta) qs :
  company_to_sha1 (init dir metas qs)
  = prod_map id sha1 <$> FindCompany.company_to_meta metas.
Proof.
  symmetry.
  exact (dict_of_map (fun m => Py.lower (company_name m)) (fun m => m) sha1
           metas []).
Qed.

Lemma best_matches_elem q (d : list (string * Meta)) (m : FindCompany.Match) :
  m ∈ FindCompany.best_matches q d ↔ m ∈ FindCompany.collect q d.
Proof.
  unfold FindCompany.best_matches.
  by rewrite (merge_sort_Permutation FindCompany.precedes).
Qed.

Lemma best_matches_head q (d : list (string * Meta))
    (m : FindCompany.Match) (rest : list FindCompany.Match) :
  FindCompany.best_matches q d = m :: rest →
  ∀ m', m' ∈ rest → FindCompany.precedes m m'.
Proof.
  intros Hbest m' Hm'.
  assert (Hsorted : StronglySorted FindCompany.precedes (m :: rest)).
  { rewrite <- Hbest. apply StronglySorted_merge_sort; apply _. }
  apply StronglySorted_inv in Hsorted as [_ Hall].
  by apply (proj1 (Forall_forall _ _) Hall).
Qed.

(** X22. With no exact match, the resolver of rag_challenge.py finds no
    document exactly when find_company.py ranks no candidate.  Otherwise
    the document it returns belongs to an indexed name whose overlap with
    the query is the score of the first candidate of find_company.py, and
    it is that candidate's document when no other candidate has the same
    score. *)
Theorem resolver_agrees_with_ranking (dir : PdfDir) (metas : list Meta)
    (qs : list Question) (query : string) :
  let a := init dir metas qs in
  let q := Py.lower query in
  let best := FindCompany.best_matches q (FindCompany.company_to_meta metas) in
  dict_get q (company_to_sha1 a) = None →
  (find_pdf_for_company a query = None ↔ best = [])
  ∧ ∀ m rest, best = m :: rest →
      ∃ name sha,
        (name, sha) ∈ company_to_sha1 a
        ∧ find_pdf_for_company a query = Some sha
        ∧ overlap q name = FindCompany.score m
        ∧ ((∀ m', m' ∈ rest →
                  (FindCompany.score m' < FindCompany.score m)%nat) →
           sha = sha1 (FindCompany.meta_of m)).
Proof.
  intros a q best Hget.
  pose proof (company_to_sha1_of_meta dir metas qs) as Hmap. fold a in Hmap.
  set (d := FindCompany.company_to_meta metas) in *.
  assert (Hsha : ∀ k v, (k, v) ∈ d → (k, sha1 v) ∈ company_to_sha1 a).
  { intros k v Hkv. rewrite Hmap. apply list_elem_of_fmap.
    by exists (k, v). }
  unfold find_pdf_for_company. fold q. rewrite Hget.
  destruct (fuzzy_scan_spec q (company_to_sha1 a))
    as [[-> Hzero]|(i & name & sha & Hi & Hfb & ->)].
  - assert (Hnil : FindCompany.collect q d = []).
    { apply elem_of_nil_inv. intros m (Hin & Hs & Hp)%collect_spec.
      apply Hsha in Hin. apply Hzero in Hin. lia. }
    assert (Hbest : best = []).
    { unfold best, FindCompany.best_matches. by rewrite Hnil. }
    simpl. split; [done|]. intros m rest Hm. by rewrite Hbest in Hm.
  - destruct Hfb as (name' & sha' & Hi' & Hpos & Hmax & _).
    rewrite Hi in Hi'. injection Hi' as <- <-.
    destruct (Nat.ltb_spec 0 (overlap q name)) as [_|?]; [|lia].
    pose proof Hi as Hd. rewrite Hmap, list_lookup_fmap in Hd.
    destruct (d !! i) as [[k v]|] eqn:Hdi; [|done].
    cbn [fmap option_fmap option_map prod_map fst snd id] in Hd.
    injection Hd as <- <-.
    assert (Hx : (overlap q k, k, v) ∈ best).
    { apply best_matches_elem, collect_spec. repeat split; [|done].
      by apply list_elem_of_lookup_2 in Hdi. }
    split.
    { split; [done|]. intros Hnil. rewrite Hnil in Hx.
      by apply elem_of_nil in Hx. }
    intros m rest Hbest. exists k, (sha1 v).
    split; [by apply list_elem_of_lookup_2 in Hi|]. split; [done|].
    assert (Hm : m ∈ best) by (rewrite Hbest; left).
    apply best_matches_elem, collect_spec in Hm as (Hin & Hs & _).
    apply Hsha, list_elem_of_lookup_1 in Hin as [j Hj].
    apply Hmax in Hj.
    pose proof (best_matches_head q d m rest Hbest) as Hhead.
    rewrite Hbest in Hx. apply elem_of_cons in Hx as [<-|Hx].
    { split; [done|]. by intros _. }
    pose proof (Hhead _ Hx) as Hle. unfold FindCompany.precedes in Hle.
    cbn [FindCompany.score FindCompany.comp_name fst snd] in Hle.
    split.
    + unfold FindCompany.score in *. destruct Hle as [Hle|[Hle _]]; lia.
    + intros Hlt. specialize (Hlt _ Hx).
      cbn [FindCompany.score fst] in Hlt.
      unfold FindCompany.score in *. destruct Hle as [Hle|[Hle _]]; lia.
Qed.

Lemma resolver_agrees_with_ranking_witness :
  dict_get (Py.lower "Holdings plc")
    (company_to_sha1 (init ∅ [acme_listed; acme_holdings_listed] [])) = None
  ∧ ∃ name sha,
      (name, sha) ∈ company_to_sha1 (init ∅ [acme_listed; acme_holdings_listed] [])
      ∧ find_pdf_for_company (init ∅ [acme_listed; acme_holdings_listed] [])
          "Holdings plc" = Some sha
      ∧ overlap (Py.lower "Holdings plc") name = 1%nat
      ∧ sha = "def456".
Proof.
  assert (Hget : dict_get (Py.lower "Holdings plc")
            (company_to_sha1 (init ∅ [acme_listed; acme_holdings_listed] []))
          = None) by (vm_compute; reflexivity).
  split; [exact Hget|].
  destruct (resolver_agrees_with_ranking ∅ [acme_listed; acme_holdings_listed] []
              "Holdings plc" Hget) as [_ Hfirst].
  assert (Hbest : FindCompany.best_matches (Py.lower "Holdings plc")
                    (FindCompany.company_to_meta
                       [acme_listed; acme_holdings_listed])
                  = [(1%nat, "acme holdings", acme_holdings_listed)])
    by (vm_compute; reflexivity).
  destruct (Hfirst _ _ Hbest) as (name & sha & Hin & Hfind & Hscore & Htop).
  exists name, sha.
  split; [exact Hin|]. split; [exact Hfind|]. split; [exact Hscore|].
  apply Htop. intros m' Hm'. apply elem_of_nil in Hm'. destruct Hm'.
Defined.

(** Two names with the same overlap: find_company.py lists the greater
    name first, the resolver returns the document of the one loaded
    first. *)
Example tie_is_resolved_differently :
  (sha1 ∘ FindCompany.meta_of
     <$> head (FindCompany.best_matches (Py.lower "ACME Inc")
                 (FindCompany.company_to_meta [acme_listed; acme_holdings_listed]))
   = Some "def456")
  ∧ find_pdf_for_company (init ∅ [acme_listed; acme_holdings_listed] [])
      "ACME Inc" = Some "abc123".
Proof. split; reflexivity. Qed.

(** * test_rag.py *)

Lemma test_question_name (oracle : Oracle) (log : list Event) :
  extract_company_name oracle (text TestRag.test_question) log
  = (Some "Liberty Broadband Corporation", log).
Proof. vm_compute. reflexivity. Qed.

Lemma test_question_short_circuits (meta : option Meta) :
  short_circuits (text TestRag.test_question) (kind TestRag.test_question) meta
  = negb (truthy (meta_get meta "has_share_buyback_plans")).
Proof.
  unfold short_circuits, denied_by_metadata.
  assert (Py.contains "share buyback"
            (Py.lower (text TestRag.test_question)) = true) as ->
    by (vm_compute; reflexivity).
  assert (Py.contains "did" (Py.lower (text TestRag.test_question)) = true)
    as -> by (vm_compute; reflexivity).
  assert (Py.contains "dividend policy"
            (Py.lower (text TestRag.test_question)) = false) as ->
    by (vm_compute; reflexivity).
  assert (Py.contains "mergers"
            (Py.lower (text TestRag.test_question)) = false) as ->
    by (vm_compute; reflexivity).
  cbn [kind TestRag.test_question String.eqb Ascii.eqb Bool.eqb andb orb].
  by destruct (truthy _).
Qed.

Lemma indexed_id_is_loaded dir (metas : list Meta) qs (key sha : string) :
  (key, sha) ∈ company_to_sha1 (init dir metas qs) →
  ∃ m, m ∈ metas ∧ sha1 m = sha
       ∧ sha1_to_meta (init dir metas qs) !! sha = Some m.
Proof.
  intros Hin. cbn [company_to_sha1 init] in Hin.
  change (foldl _ [] metas) with (index_names [] metas) in Hin.
  destruct (index_names_spec metas [] (NoDup_nil_2)) as (_ & _ & Hval & _).
  destruct (Hval _ _ Hin) as [Hnil|(m0 & Hm0 & _ & ->)];
    [by apply elem_of_nil in Hnil|].
  cbn [sha1_to_meta init]. rewrite meta_fold_lookup, lookup_empty.
  destruct (last (filter (fun meta => sha1 meta = sha1 m0) metas))
    as [m|] eqn:Hlast.
  - apply last_Some_elem_of, list_elem_of_filter in Hlast as [Hsha Hm].
    by exists m.
  - apply last_None in Hlast.
    assert (Hm : m0 ∈ filter (fun meta => sha1 meta = sha1 m0) metas)
      by (by apply list_elem_of_filter).
    rewrite Hlast in Hm. by apply elem_of_nil in Hm.
Qed.

Lemma test_rag_main_unfold (oracle : Oracle) (a : PDFQuestionAnswerer)
    (log : list Event) :
  TestRag.main oracle a log
  = let found := find_pdf_for_company a "Liberty Broadband Corporation" in
    let said := [TestRag.Testing (text TestRag.test_question);
                 TestRag.ExtractedName (Some "Liberty Broadband Corporation");
                 TestRag.FoundPdf found] in
    match found with
    | None => ({| TestRag.printed := said; TestRag.status := 0 |}, log)
    | Some sha =>
        if Py.truthy_str sha then
          let '(result, log') :=
            process_question oracle a TestRag.test_question log in
          ({| TestRag.printed :=
                said ++ [TestRag.Metadata (sha1_to_meta a !! sha);
                         TestRag.Result result; TestRag.FinalOutput [result]];
              TestRag.status := 0 |}, log')
        else ({| TestRag.printed := said; TestRag.status := 0 |}, log)
    end.
Proof.
  unfold TestRag.main, mbind, M_bind at 1. rewrite test_question_name.
  cbv zeta.
  destruct (find_pdf_for_company a _) as [sha|]; [|done].
  by destruct (Py.truthy_str sha).
Qed.

(** X23. test_rag.py never raises on its test question and asks the model
    for no company name: the second pattern extracts
    [Liberty Broadband Corporation].  When the index resolves that name to
    no document, or to an empty id, the script stops after three lines
    with no request to the model.  Otherwise the metadata it prints is a
    loaded record with the resolved id, and the result it prints is:
    [N/A] without a request when the document is absent or has no page;
    [False] on page 0 without a request when the record's
    [has_share_buyback_plans] is missing or falsy; and the outcome of the
    page search on that document otherwise. *)
Theorem test_rag_run (oracle : Oracle) (dir : PdfDir) (metas : list Meta)
    (qs : list Question) (log : list Event) :
  let a := init dir metas qs in
  let q := text TestRag.test_question in
  let found := find_pdf_for_company a "Liberty Broadband Corporation" in
  let said := [TestRag.Testing q;
               TestRag.ExtractedName (Some "Liberty Broadband Corporation");
               TestRag.FoundPdf found] in
  match found with
  | None =>
      TestRag.main oracle a log
      = ({| TestRag.printed := said; TestRag.status := 0 |}, log)
  | Some sha =>
      if Py.truthy_str sha then
        ∃ m, m ∈ metas ∧ sha1 m = sha ∧ sha1_to_meta a !! sha = Some m
          ∧ TestRag.main oracle a log
            = let '(result, log') :=
                match pdf_dir a !! sha with
                | Some (page :: pages) =>
                    if truthy (meta_get (Some m) "has_share_buyback_plans")
                    then select_answer oracle q "boolean" sha (page :: pages) log
                    else (denied q sha, log)
                | _ => (unresolved q, log)
                end in
              ({| TestRag.printed :=
                    said ++ [TestRag.Metadata (Some m); TestRag.Result result;
                             TestRag.FinalOutput [result]];
                  TestRag.status := 0 |}, log')
      else
        TestRag.main oracle a log
        = ({| TestRag.printed := said; TestRag.status := 0 |}, log)
  end.
Proof.
  intros a q found said.
  rewrite !test_rag_main_unfold. cbv zeta. subst said found.
  destruct (find_pdf_for_company a _) as [sha|] eqn:Hfound; [|done].
  destruct (Py.truthy_str sha) eqn:Htruthy; [|done].
  destruct (find_in_index a _ _ Hfound) as [key Hkey].
  destruct (indexed_id_is_loaded dir metas qs key sha Hkey)
    as (m & Hm & Hsha & Hmeta).
  exists m. split; [done|]. split; [done|]. split; [done|].
  fold a in Hmeta. rewrite Hmeta.
  assert (Hne : sha ≠ "") by (by intros ->).
  destruct (pdf_dir a !! sha) as [[|page pages]|] eqn:Hfile.
  - unfold process_question, mbind, M_bind at 1. rewrite test_question_name.
    cbn [Py.truthy_str negb]. by rewrite Hfound, Htruthy, Hfile.
  - rewrite (process_question_resolved oracle a TestRag.test_question log
               "Liberty Broadband Corporation" log sha (page :: pages)
               (test_question_name oracle log) ltac:(done) Hfound Hne Hfile
               ltac:(done)).
    rewrite test_question_short_circuits, Hmeta.
    by destruct (truthy _).
  - unfold process_question, mbind, M_bind at 1. rewrite test_question_name.
    cbn [Py.truthy_str negb]. by rewrite Hfound, Htruthy, Hfile.
Qed.
